(** * ladder: the ProxyChain exchange orchestrator

    A shallow embedding of [proxychain/proxychain.go], of the request
    modifiers of package [rqm] that write request headers or expand the
    running chain, and of the response modifiers of package [rsm].

    Go pointers are [option]s ([None] is [nil]); dereferencing [nil] is a
    run-time panic, which the [Go] monad below propagates while still
    running deferred calls.  Go [error] values are represented by their
    message, [None] standing for the [nil] error. *)

From Stdlib Require Import String List ZArith Bool Ascii Arith Lia.
From Stdlib.Strings Require Import Byte.
Import ListNotations.
Open Scope string_scope.
Open Scope list_scope.

Set Implicit Arguments.
#[local] Set Warnings "-register-all".

Infix "+++" := String.append (right associativity, at level 60).

(** ** Go values *)

Definition error := option string.

Inductive Result (A : Type) : Type :=
| Ok (a : A)
| Err (msg : string).
Arguments Ok {A} a.
Arguments Err {A} msg.

(** How a call ends: it returns a value, or it panics. *)
Inductive Outcome (A : Type) : Type :=
| Returns (a : A)
| Panics.
Arguments Returns {A} a.
Arguments Panics {A}.

(** [fmt]'s [%v] verb on an [error]: the message, or [<nil>]. *)
Definition fmt_v (e : error) : string :=
  match e with
  | Some msg => msg
  | None => "<nil>"
  end.

(** [strings.TrimPrefix]. *)
Definition TrimPrefix (s prefix : string) : string :=
  if String.prefix prefix s
  then String.substring (String.length prefix)
                        (String.length s - String.length prefix) s
  else s.

(** ** Package [net/url]: the fields of [url.URL] *)

Module url.

Record Userinfo := {
  username : string;
  password : string;
  passwordSet : bool
}.

Record URL := {
  Scheme : string;
  Opaque : string;
  User : option Userinfo;
  Host : string;
  Path : string;
  RawPath : string;
  OmitHost : bool;
  ForceQuery : bool;
  RawQuery : string;
  Fragment : string;
  RawFragment : string
}.

(** The composite literal
    [&url.URL{Scheme: s, Host: h, Path: p, RawQuery: q}]:
    every other field keeps its zero value. *)
Definition literal (s h p q : string) : URL :=
  {| Scheme := s; Opaque := ""; User := None; Host := h; Path := p;
     RawPath := ""; OmitHost := false; ForceQuery := false;
     RawQuery := q; Fragment := ""; RawFragment := "" |}.

End url.

(** ** Package [net/http]: requests, responses, clients *)

Module http.

(** The entries of an [http.Header] that is not [nil], keys in
    canonical form. *)
Definition Header := list (string * string).

Definition upper (c : ascii) : ascii :=
  let n := nat_of_ascii c in
  if andb (Nat.leb 97 n) (Nat.leb n 122) then ascii_of_nat (n - 32) else c.

Definition lower (c : ascii) : ascii :=
  let n := nat_of_ascii c in
  if andb (Nat.leb 65 n) (Nat.leb n 90) then ascii_of_nat (n + 32) else c.

(** [textproto.CanonicalMIMEHeaderKey] on keys made of letters, digits
    and hyphens: the first letter and every letter after a hyphen in
    upper case, the others in lower case. *)
Fixpoint canonical (up : bool) (key : string) : string :=
  match key with
  | EmptyString => EmptyString
  | String c rest =>
      String (if up then upper c else lower c)
             (canonical (Ascii.eqb c "-"%char) rest)
  end.

Definition CanonicalMIMEHeaderKey (key : string) : string :=
  canonical true key.

Definition Del (h : Header) (key : string) : Header :=
  filter (fun kv => negb (String.eqb (fst kv) (CanonicalMIMEHeaderKey key))) h.

Definition Set_ (h : Header) (key value : string) : Header :=
  (CanonicalMIMEHeaderKey key, value) :: Del h key.

(** [Header.Get]: the first value stored under the canonical key, or
    the empty string. *)
Definition Get (h : Header) (key : string) : string :=
  match find (fun kv => String.eqb (fst kv) (CanonicalMIMEHeaderKey key)) h with
  | Some kv => snd kv
  | None => ""
  end.

(** The [Header] field of a request is a map, and a map may be [nil]:
    [None] stands for the [nil] map.  [delete] on a [nil] map does
    nothing, and assigning to an entry of it panics. *)
Definition Header_Del (h : option Header) (key : string) : option Header :=
  match h with
  | Some entries => Some (Del entries key)
  | None => None
  end.

Definition Header_Set (h : option Header) (key value : string)
  : Outcome (option Header) :=
  match h with
  | Some entries => Returns (Some (Set_ entries key value))
  | None => Panics
  end.

Record Request := { ReqHeader : option Header }.

(** The fields of [http.Cookie] that a request cookie carries. *)
Record Cookie := { Name : string; Value : string }.

(** A response; its body stream is represented by what [io.ReadAll]
    obtains from it: the bytes, or a read error. *)
Record Response := {
  StatusCode : Z;
  RespBody : Result (list byte)
}.

Record Client := { Timeout : Z }.

End http.

(** [io.ReadAll(resp.Body)]. *)
Definition ReadAll (r : http.Response) : Result (list byte) :=
  http.RespBody r.

(** ** Package [fasthttp]: the header of a response *)

Module fasthttp.

(** The headers that a response holds: pairs of a normalised key and a
    value. *)
Definition ResponseHeader := list (string * string).

(** What the package does with a header is not fixed here, apart from
    [Del]: how it normalises a key, and what [Set] stores, which for
    some keys is not one value under the key.  Every theorem that
    quantifies over [Methods] holds whatever these functions return. *)
Class Methods := {
  normalizeHeaderKey : string -> string;
  Set_ : ResponseHeader -> string -> string -> ResponseHeader
}.

(** [ResponseHeader.Del]: no header is left under the normalised key. *)
Definition Del {M : Methods} (h : ResponseHeader) (key : string) : ResponseHeader :=
  filter (fun kv => negb (String.eqb (fst kv) (normalizeHeaderKey key))) h.

End fasthttp.

(** ** Package [fiber]: the context of one inbound request *)

Module fiber.

Record Ctx := {
  ParamsStar : string;            (* the wildcard route parameter *)
  Referer : string;               (* the referer header, empty when absent *)
  Status : Z;                     (* response status code *)
  ResponseHeader : fasthttp.ResponseHeader;
  ResponseBody : list byte
}.

Definition SetStatusCode (c : Ctx) (code : Z) : Ctx :=
  {| ParamsStar := ParamsStar c; Referer := Referer c; Status := code;
     ResponseHeader := ResponseHeader c; ResponseBody := ResponseBody c |}.

Definition Send (c : Ctx) (body : list byte) : Ctx :=
  {| ParamsStar := ParamsStar c; Referer := Referer c; Status := Status c;
     ResponseHeader := ResponseHeader c; ResponseBody := body |}.

Definition SendString (c : Ctx) (body : string) : Ctx :=
  Send c (list_byte_of_string body).

End fiber.

(** A [*fiber.Ctx] is an address; the contexts live in the server's
    memory, outside the ProxyChain, and outlive its reset. *)
Definition CtxPtr := nat.
Definition CtxHeap := CtxPtr -> fiber.Ctx.

Definition store (h : CtxHeap) (c : CtxPtr) (v : fiber.Ctx) : CtxHeap :=
  fun c' => if Nat.eqb c' c then v else h c'.

(** ** The library boundary

    What the standard library computes is not fixed here: every theorem
    that quantifies over a [Library] holds whatever these functions
    return.  [Do] covers the client's [Do] method, including its behaviour on
    a [nil] client or request. *)
Class Library := {
  QueryUnescape : string -> Result string;
  Parse : string -> Result url.URL;
  URL_String : url.URL -> string;
  Do : option http.Client -> option http.Request ->
       Outcome (Result http.Response)
}.

(** ** ProxyChain *)

(** The exported fields: what code outside the package can read and
    assign on a [*ProxyChain]. *)
Record Exported := {
  eCtx : option CtxPtr;
  eURL : option url.URL;
  eClient : option http.Client;
  eReq : option http.Request;
  eResp : option http.Response;
  eBody : option (list byte)
}.

(** A [ruleset.RuleSet] is opaque to the chain, which only stores the
    pointer; a rule set is represented by its name. *)
Definition RuleSet := string.

(** The methods through which a modifier reaches the unexported fields. *)
Inductive Call (M : Type) : Type :=
| CallSetReqMods (ms : list M)
| CallAddReqMods (ms : list M)
| CallSetResMods (ms : list M)
| CallAddResMods (ms : list M)
| CallAddRuleset (rs : option RuleSet)
| CallSetVerbose.
Arguments CallSetReqMods {M} ms.
Arguments CallAddReqMods {M} ms.
Arguments CallSetResMods {M} ms.
Arguments CallAddResMods {M} ms.
Arguments CallAddRuleset {M} rs.
Arguments CallSetVerbose {M}.

(** What one run of a modifier does: the exported fields and the fiber
    contexts as it leaves them, the methods it called on the chain, in
    order, and how it ended ([Returns None] is a [nil] error).  A
    modifier that calls [SetCtx] or [Execute] on the chain it runs in is
    not represented. *)
Record Effect (M : Type) : Type := {
  fields : Exported;
  contexts : CtxHeap;
  calls : list (Call M);
  result : Outcome error
}.
Arguments fields {M} e.
Arguments contexts {M} e.
Arguments calls {M} e.
Arguments result {M} e.

(** The types [ReqMod] and [ResMod]: functions from a pointer to the
    chain to an [error]. *)
Inductive Modifier : Type :=
| Mod (run : Exported -> CtxHeap -> Effect Modifier).

Abbreviation ReqMod := Modifier (only parsing).
Abbreviation ResMod := Modifier (only parsing).

Definition run (m : Modifier) : Exported -> CtxHeap -> Effect Modifier :=
  match m with Mod f => f end.

Record ProxyChain := {
  Ctx : option CtxPtr;
  URL : option url.URL;
  Client : option http.Client;
  Req : option http.Request;
  Resp : option http.Response;
  Body : option (list byte);
  reqMods : list ReqMod;
  resMods : list ResMod;
  ruleset : option RuleSet;
  verbose : bool;
  _abort_err : error
}.

(** Assignments to single fields. *)
Definition set_Ctx (p : ProxyChain) (v : option CtxPtr) : ProxyChain :=
  {| Ctx := v; URL := URL p; Client := Client p; Req := Req p;
     Resp := Resp p; Body := Body p; reqMods := reqMods p;
     resMods := resMods p; ruleset := ruleset p; verbose := verbose p;
     _abort_err := _abort_err p |}.

Definition set_URL (p : ProxyChain) (v : option url.URL) : ProxyChain :=
  {| Ctx := Ctx p; URL := v; Client := Client p; Req := Req p;
     Resp := Resp p; Body := Body p; reqMods := reqMods p;
     resMods := resMods p; ruleset := ruleset p; verbose := verbose p;
     _abort_err := _abort_err p |}.

Definition set_Resp (p : ProxyChain) (v : option http.Response) : ProxyChain :=
  {| Ctx := Ctx p; URL := URL p; Client := Client p; Req := Req p;
     Resp := v; Body := Body p; reqMods := reqMods p;
     resMods := resMods p; ruleset := ruleset p; verbose := verbose p;
     _abort_err := _abort_err p |}.

Definition set_Body (p : ProxyChain) (v : option (list byte)) : ProxyChain :=
  {| Ctx := Ctx p; URL := URL p; Client := Client p; Req := Req p;
     Resp := Resp p; Body := v; reqMods := reqMods p;
     resMods := resMods p; ruleset := ruleset p; verbose := verbose p;
     _abort_err := _abort_err p |}.

Definition set_abort_err (p : ProxyChain) (v : error) : ProxyChain :=
  {| Ctx := Ctx p; URL := URL p; Client := Client p; Req := Req p;
     Resp := Resp p; Body := Body p; reqMods := reqMods p;
     resMods := resMods p; ruleset := ruleset p; verbose := verbose p;
     _abort_err := v |}.

(** The view a modifier of another package has of the chain, and the
    chain after the modifier assigned the exported fields. *)
Definition exported (p : ProxyChain) : Exported :=
  {| eCtx := Ctx p; eURL := URL p; eClient := Client p; eReq := Req p;
     eResp := Resp p; eBody := Body p |}.

Definition assign (p : ProxyChain) (e : Exported) : ProxyChain :=
  {| Ctx := eCtx e; URL := eURL e; Client := eClient e; Req := eReq e;
     Resp := eResp e; Body := eBody e; reqMods := reqMods p;
     resMods := resMods p; ruleset := ruleset p; verbose := verbose p;
     _abort_err := _abort_err p |}.

(** *** Configuration methods *)

Definition SetReqMods (p : ProxyChain) (ms : list ReqMod) : ProxyChain :=
  {| Ctx := Ctx p; URL := URL p; Client := Client p; Req := Req p;
     Resp := Resp p; Body := Body p; reqMods := ms;
     resMods := resMods p; ruleset := ruleset p; verbose := verbose p;
     _abort_err := _abort_err p |}.

Definition AddReqMods (p : ProxyChain) (ms : list ReqMod) : ProxyChain :=
  {| Ctx := Ctx p; URL := URL p; Client := Client p; Req := Req p;
     Resp := Resp p; Body := Body p; reqMods := reqMods p ++ ms;
     resMods := resMods p; ruleset := ruleset p; verbose := verbose p;
     _abort_err := _abort_err p |}.

Definition SetResMods (p : ProxyChain) (ms : list ResMod) : ProxyChain :=
  {| Ctx := Ctx p; URL := URL p; Client := Client p; Req := Req p;
     Resp := Resp p; Body := Body p; reqMods := reqMods p;
     resMods := ms; ruleset := ruleset p; verbose := verbose p;
     _abort_err := _abort_err p |}.

Definition AddResMods (p : ProxyChain) (ms : list ResMod) : ProxyChain :=
  {| Ctx := Ctx p; URL := URL p; Client := Client p; Req := Req p;
     Resp := Resp p; Body := Body p; reqMods := reqMods p;
     resMods := resMods p ++ ms; ruleset := ruleset p; verbose := verbose p;
     _abort_err := _abort_err p |}.

Definition AddRuleset (p : ProxyChain) (rs : option RuleSet) : ProxyChain :=
  {| Ctx := Ctx p; URL := URL p; Client := Client p; Req := Req p;
     Resp := Resp p; Body := Body p; reqMods := reqMods p;
     resMods := resMods p; ruleset := rs; verbose := verbose p;
     _abort_err := _abort_err p |}.

Definition SetClient (p : ProxyChain) (c : option http.Client) : ProxyChain :=
  {| Ctx := Ctx p; URL := URL p; Client := c; Req := Req p;
     Resp := Resp p; Body := Body p; reqMods := reqMods p;
     resMods := resMods p; ruleset := ruleset p; verbose := verbose p;
     _abort_err := _abort_err p |}.

Definition SetVerbose (p : ProxyChain) : ProxyChain :=
  {| Ctx := Ctx p; URL := URL p; Client := Client p; Req := Req p;
     Resp := Resp p; Body := Body p; reqMods := reqMods p;
     resMods := resMods p; ruleset := ruleset p; verbose := true;
     _abort_err := _abort_err p |}.

(** [NewProxyChain], given the package variable [defaultClient]. *)
Definition NewProxyChain (defaultClient : option http.Client) : ProxyChain :=
  {| Ctx := None; URL := None; Client := defaultClient; Req := None;
     Resp := None; Body := None; reqMods := []; resMods := [];
     ruleset := None; verbose := false; _abort_err := None |}.

(** [DefaultClient] assigns this client to [defaultClient]. *)
Definition DefaultClient : option http.Client :=
  Some {| http.Timeout := 15 |}.

(** One method call made by a modifier on the chain it received. *)
Definition perform (p : ProxyChain) (c : Call Modifier) : ProxyChain :=
  match c with
  | CallSetReqMods ms => SetReqMods p ms
  | CallAddReqMods ms => AddReqMods p ms
  | CallSetResMods ms => SetResMods p ms
  | CallAddResMods ms => AddResMods p ms
  | CallAddRuleset rs => AddRuleset p rs
  | CallSetVerbose => SetVerbose p
  end.

(** ** The world outside the chain *)

(** What the chain itself does during an exchange, in order: it calls
    the request modifier at position [i] of the slice it ranges over, it
    calls the response modifier at position [i], it asks the client to
    send a request, it logs a line.  The trace is kept for the
    statements below; the code has no such record. *)
Inductive Event : Type :=
| EvReqMod (i : nat)
| EvResMod (i : nat)
| EvDo (c : option http.Client) (r : option http.Request)
| EvLog (line : string).

Record World := {
  heap : CtxHeap;
  trace : list Event
}.

Definition emit (w : World) (ev : Event) : World :=
  {| heap := heap w; trace := trace w ++ [ev] |}.

Definition set_heap (w : World) (h : CtxHeap) : World :=
  {| heap := h; trace := trace w |}.

(** ** Computations on a chain: state, panics, deferred calls *)

Definition Go (A : Type) : Type :=
  ProxyChain -> World -> Outcome A * (ProxyChain * World).

Definition ret {A} (a : A) : Go A :=
  fun p w => (Returns a, (p, w)).

Definition bind {A B} (m : Go A) (k : A -> Go B) : Go B :=
  fun p w =>
    match m p w with
    | (Returns a, (p', w')) => k a p' w'
    | (Panics, s) => (Panics, s)
    end.

Definition panic {A} : Go A :=
  fun p w => (Panics, (p, w)).

(** [defer d(); body]: [d] runs when [body] is left, by return or by
    panic, and the outcome of [body] stands. *)
Definition defer {A} (d : ProxyChain -> ProxyChain) (body : Go A) : Go A :=
  fun p w =>
    match body p w with
    | (o, (p', w')) => (o, (d p', w'))
    end.

Definition get : Go ProxyChain :=
  fun p w => (Returns p, (p, w)).

Definition modify (f : ProxyChain -> ProxyChain) : Go unit :=
  fun p w => (Returns tt, (f p, w)).

Definition getw : Go World :=
  fun p w => (Returns w, (p, w)).

Definition modifyw (f : World -> World) : Go unit :=
  fun p w => (Returns tt, (p, f w)).

(** Dereferencing a pointer: [nil] panics. *)
Definition deref {A} (ptr : option A) : Go A :=
  match ptr with
  | Some a => ret a
  | None => panic
  end.

Declare Scope go_scope.
Delimit Scope go_scope with go.
Notation "x <- m ;; k" := (bind m (fun x => k))
  (at level 61, m at next level, right associativity) : go_scope.
Notation "m ;; k" := (bind m (fun _ => k))
  (at level 61, right associativity) : go_scope.
Open Scope go_scope.

(** Calling a modifier on the chain. *)
Definition call (m : Modifier) : Go error :=
  fun p w =>
    let e := run m (exported p) (heap w) in
    (result e,
     (fold_left perform (calls e) (assign p (fields e)),
      set_heap w (contexts e))).

Section proxychain.

Context {L : Library}.

(** *** [_reset] *)
Definition _reset (p : ProxyChain) : ProxyChain :=
  {| Ctx := None; URL := None; Client := Client p; Req := None;
     Resp := None; Body := None; reqMods := reqMods p;
     resMods := resMods p; ruleset := ruleset p; verbose := verbose p;
     _abort_err := None |}.

(** *** [abort] *)
Definition abort (err : string) : Go string :=
  defer _reset (
    modify (fun p => set_abort_err p (Some err)) ;;
    p <- get ;;
    c <- deref (Ctx p) ;;
    modifyw (fun w => set_heap w (store (heap w) c
                        (fiber.SetStatusCode (heap w c) 500))) ;;
    u <- deref (URL p) ;;
    let e := "ProxyChain error for '" +++ URL_String u +++ "': " +++ err in
    modifyw (fun w => set_heap w (store (heap w) c
                        (fiber.SendString (heap w c) e))) ;;
    modifyw (fun w => emit w (EvLog e)) ;;
    ret e).

(** *** [extractUrl] *)

(** Its first statement: the captured value URL-decoded, or as it is
    when decoding fails. *)
Definition unescaped (capture : string) : string :=
  match QueryUnescape capture with
  | Ok s => s
  | Err _ => capture
  end.

Definition extractUrl : Go error :=
  p <- get ;;
  c <- deref (Ctx p) ;;
  w <- getw ;;
  let reqUrl := unescaped (fiber.ParamsStar (heap w c)) in
  match Parse reqUrl with
  | Err err =>
      ret (Some ("error parsing request URL '" +++ reqUrl +++ "': " +++ err))
  | Ok urlQuery =>
      let isRelativePath := String.eqb (url.Scheme urlQuery) "" in
      if negb isRelativePath then
        modify (fun p => set_URL p (Some urlQuery)) ;;
        ret None
      else
        let referer_err err :=
          ret (Some ("error parsing referer URL from req: '" +++ reqUrl
                     +++ "': " +++ fmt_v err)) in
        match Parse (fiber.Referer (heap w c)) with
        | Err err => referer_err (Some err)
        | Ok refererUrl =>
            if String.eqb (url.Host refererUrl) "" then referer_err None
            else
              match Parse (TrimPrefix (url.Path refererUrl) "/") with
              | Err err =>
                  ret (Some ("error parsing real URL from referer '"
                             +++ url.Path refererUrl +++ "': " +++ err))
              | Ok realUrl =>
                  let u := url.literal (url.Scheme realUrl)
                                       (url.Host realUrl)
                                       (url.Path urlQuery)
                                       (url.RawQuery urlQuery) in
                  modify (fun p => set_URL p (Some u)) ;;
                  let isRelativePath := String.eqb (url.Scheme urlQuery) "" in
                  if isRelativePath then
                    ret (Some ("ProxyChain failed to extract url from relative path: '"
                               +++ reqUrl +++ "'"))
                  else
                    (if verbose p
                     then modifyw (fun w => emit w (EvLog
                            ("modified relative URL: '" +++ reqUrl
                             +++ "' -> '" +++ URL_String u +++ "'")))
                     else ret tt) ;;
                    ret None
              end
        end
  end.

(** *** [SetCtx] *)
Definition SetCtx (ctx : CtxPtr) : Go unit :=
  modify (fun p => set_Ctx p (Some ctx)) ;;
  err <- extractUrl ;;
  match err with
  | Some msg =>
      e <- abort msg ;;
      modify (fun p => set_abort_err p (Some e))
  | None => ret tt
  end.

(** *** [_validate_ctx_is_set] *)
Definition _validate_ctx_is_set : Go unit :=
  p <- get ;;
  match Ctx p with
  | Some _ => ret tt
  | None =>
      e <- abort "proxyChain was called without setting a fiber Ctx. Use ProxyChain.SetCtx()" ;;
      modify (fun p => set_abort_err p (Some e))
  end.

(** *** The two loops of [_execute]

    [for _, reqMod := range p.reqMods] evaluates [p.reqMods] once,
    before the first iteration: the loop runs over that slice, however
    the field is reassigned meanwhile.  Both loops have the same body;
    [ev] tells them apart in the trace.  The result is [Some e] when the
    loop returned [p.abort(err)] from [_execute], [None] when it ran to
    its end. *)
Fixpoint range_mods (ev : nat -> Event) (i : nat) (ms : list Modifier)
  : Go (option string) :=
  match ms with
  | [] => ret None
  | mod_ :: rest =>
      modifyw (fun w => emit w (ev i)) ;;
      err <- call mod_ ;;
      match err with
      | Some msg => e <- abort msg ;; ret (Some e)
      | None => range_mods ev (S i) rest
      end
  end.

Definition range_reqMods : nat -> list ReqMod -> Go (option string) :=
  range_mods EvReqMod.

Definition range_resMods : nat -> list ResMod -> Go (option string) :=
  range_mods EvResMod.

(** *** [_execute]

    The result is the returned [error]; when it is [nil] the returned
    pointer is [&p.Body].  [dispatch] is the second half of the
    function, from [p.Client.Do(p.Req)] to the final [return]. *)
Definition dispatch : Go error :=
  (* Send Request Upstream *)
  p <- get ;;
  modifyw (fun w => emit w (EvDo (Client p) (Req p))) ;;
  match Do (Client p) (Req p) with
  | Panics => panic
  | Returns (Err err) => e <- abort err ;; ret (Some e)
  | Returns (Ok resp) =>
      modify (fun p => set_Resp p (Some resp)) ;;
      (* Buffer response into memory *)
      match ReadAll resp with
      | Err err => e <- abort err ;; ret (Some e)
      | Ok body =>
          modify (fun p => set_Body p (Some body)) ;;
          (* Apply ResponseModifiers *)
          p <- get ;;
          aborted <- range_resMods 0 (resMods p) ;;
          match aborted with
          | Some e => ret (Some e)
          | None => ret None
          end
      end
  end.

Definition _execute : Go error :=
  _validate_ctx_is_set ;;
  p <- get ;;
  match _abort_err p with
  | Some e => ret (Some e)
  | None =>
      match Ctx p with
      | None => ret (Some "request ctx not set. Use ProxyChain.SetCtx()")
      | Some _ =>
          u <- deref (URL p) ;;
          if String.eqb (url.Scheme u) "" then
            ret (Some "request url not set or invalid. Check ProxyChain ReqMods for issues")
          else
            (* Apply ReqMods *)
            aborted <- range_reqMods 0 (reqMods p) ;;
            match aborted with
            | Some e => ret (Some e)
            | None => dispatch
            end
      end
  end.

(** [p.Ctx.Send( *body)] with [body = &p.Body]. *)
Definition Ctx_Send_Body : Go error :=
  p <- get ;;
  c <- deref (Ctx p) ;;
  let body := match Body p with Some b => b | None => [] end in
  modifyw (fun w => set_heap w (store (heap w) c (fiber.Send (heap w c) body))) ;;
  ret None.

(** *** [Execute] *)
Definition Execute : Go error :=
  defer _reset (
    err <- _execute ;;
    match err with
    | Some e => ret (Some e)
    | None => Ctx_Send_Body
    end).

(** *** [ExecuteAPIContent] *)
Definition ExecuteAPIContent : Go error :=
  defer _reset (
    err <- _execute ;;
    match err with
    | Some e => ret (Some e)
    | None => Ctx_Send_Body
    end).

End proxychain.

(** ** Package [rqm]: the request modifiers that expand the chain *)

Module rqm.

Definition effect (e : Exported) (h : CtxHeap) (cs : list (Call Modifier))
           (r : Outcome error) : Effect Modifier :=
  {| fields := e; contexts := h; calls := cs; result := r |}.

Definition set_eReq (e : Exported) (r : option http.Request) : Exported :=
  {| eCtx := eCtx e; eURL := eURL e; eClient := eClient e; eReq := r;
     eResp := eResp e; eBody := eBody e |}.

(** A modifier whose body is [px.Req.Header.Set(key, value)] or
    [px.Req.Header.Del(key)]: a [nil] [px.Req] panics, and so does [Set]
    on a request whose [Header] is the [nil] map. *)
Definition on_Req_Header (f : option http.Header -> Outcome (option http.Header))
  : ReqMod :=
  Mod (fun e h =>
    match eReq e with
    | None => effect e h [] Panics
    | Some r =>
        match f (http.ReqHeader r) with
        | Panics => effect e h [] Panics
        | Returns hd =>
            effect (set_eReq e (Some {| http.ReqHeader := hd |}))
                   h [] (Returns None)
        end
    end).

Definition SpoofUserAgent (ua : string) : ReqMod :=
  on_Req_Header (fun hd => http.Header_Set hd "user-agent" ua).

Definition SpoofXForwardedFor (ip : string) : ReqMod :=
  on_Req_Header (fun hd => http.Header_Set hd "X-FORWARDED-FOR" ip).

Definition SpoofReferrer (url : string) : ReqMod :=
  if String.eqb url ""
  then on_Req_Header (fun hd => Returns (http.Header_Del hd "referrer"))
  else on_Req_Header (fun hd => http.Header_Set hd "referrer" url).

Definition masqueradeAsTrustedBot (botUA botIP : string) : ReqMod :=
  Mod (fun e h =>
    effect e h
      [CallAddReqMods [SpoofUserAgent botUA;
                       SpoofXForwardedFor botIP;
                       SpoofReferrer ""]]
      (Returns None)).

Definition MasqueradeAsGoogleBot : ReqMod :=
  let botUA := "Mozilla/5.0 AppleWebKit/537.36 (KHTML, like Gecko; compatible; Googlebot/2.1; http://www.google.com/bot.html) Chrome/79.0.3945.120 Safari/537.36" in
  let botIP := "66.249.78.8" in
  masqueradeAsTrustedBot botUA botIP.

Definition MasqueradeAsBingBot : ReqMod :=
  let botUA := "Mozilla/5.0 AppleWebKit/537.36 (KHTML, like Gecko; compatible; bingbot/2.0; +http://www.bing.com/bingbot.htm) Chrome/79.0.3945.120 Safari/537.36" in
  let botIP := "13.66.144.9" in
  masqueradeAsTrustedBot botUA botIP.

(** [spoof_origin.go]. *)
Definition SpoofOrigin (url : string) : ReqMod :=
  on_Req_Header (fun hd => http.Header_Set hd "origin" url).

(** [block_outgoing_cookies.go]. *)
Definition BlockOutgoingCookies : ReqMod :=
  on_Req_Header (fun hd => Returns (http.Header_Del hd "Cookie")).

Definition set_eURL (e : Exported) (u : option url.URL) : Exported :=
  {| eCtx := eCtx e; eURL := u; eClient := eClient e; eReq := eReq e;
     eResp := eResp e; eBody := eBody e |}.

Section hide.

Context {L : Library}.

(** A modifier whose body is [px.Req.Header.Set(key, px.URL.String())]:
    a [nil] [px.Req] and a [nil] [px.URL] both panic, and so does [Set]
    on a request whose [Header] is the [nil] map. *)
Definition set_to_URL (key : string) : ReqMod :=
  Mod (fun e h =>
    match eReq e, eURL e with
    | Some r, Some u =>
        match http.Header_Set (http.ReqHeader r) key (URL_String u) with
        | Panics => effect e h [] Panics
        | Returns hd =>
            effect (set_eReq e (Some {| http.ReqHeader := hd |}))
                   h [] (Returns None)
        end
    | _, _ => effect e h [] Panics
    end).

Definition HideOrigin : ReqMod := set_to_URL "origin".

Definition HideReferrer : ReqMod := set_to_URL "referrer".

End hide.

Section cookies.

(** The methods [Cookies] and [AddCookie] of a request are left to the
    library.  [AddCookie] writes the Cookie header with [Header.Set],
    so it may panic. *)
Variable Cookies : http.Request -> list http.Cookie.
Variable AddCookie : http.Request -> http.Cookie -> Outcome http.Request.

(** The loop that adds back the cookies named in the whitelist: the
    request as the loop left it, and whether the loop ran to its end. *)
Fixpoint add_whitelisted (whitelist : list string) (cookies : list http.Cookie)
         (req : http.Request) : http.Request * Outcome error :=
  match cookies with
  | [] => (req, Returns None)
  | cookie :: rest =>
      if existsb (String.eqb (http.Name cookie)) whitelist
      then match AddCookie req cookie with
           | Returns req' => add_whitelisted whitelist rest req'
           | Panics => (req, Panics)
           end
      else add_whitelisted whitelist rest req
  end.

Definition BlockOutgoingCookiesExcept (whitelist : list string) : ReqMod :=
  Mod (fun e h =>
    match eReq e with
    | None => effect e h [] Panics
    | Some r =>
        (* Get all cookies from the request header *)
        let cookies := Cookies r in
        (* Clear the original Cookie header *)
        let cleared :=
          {| http.ReqHeader := http.Header_Del (http.ReqHeader r) "Cookie" |} in
        (* Re-add cookies that are in the whitelist *)
        let kept := add_whitelisted whitelist cookies cleared in
        effect (set_eReq e (Some (fst kept))) h [] (snd kept)
    end).

End cookies.

End rqm.

(** ** Package [rsm]: the response modifiers *)

Module rsm.

Definition set_ResponseHeader (c : fiber.Ctx) (hd : fasthttp.ResponseHeader)
  : fiber.Ctx :=
  {| fiber.ParamsStar := fiber.ParamsStar c; fiber.Referer := fiber.Referer c;
     fiber.Status := fiber.Status c; fiber.ResponseHeader := hd;
     fiber.ResponseBody := fiber.ResponseBody c |}.

(** A modifier whose body is [px.Ctx.Response().Header.Set(key, value)]
    or [px.Ctx.Response().Header.Del(key)]: a [nil] [px.Ctx] panics. *)
Definition on_Response_Header
           (f : fasthttp.ResponseHeader -> fasthttp.ResponseHeader) : ResMod :=
  Mod (fun e h =>
    match eCtx e with
    | None => rqm.effect e h [] Panics
    | Some c =>
        rqm.effect e
          (store h c (set_ResponseHeader (h c) (f (fiber.ResponseHeader (h c)))))
          [] (Returns None)
    end).

Section header.

Context {F : fasthttp.Methods}.

Definition ModifyResponseHeader (key value : string) : ResMod :=
  if String.eqb value ""
  then on_Response_Header (fun hd => fasthttp.Del hd key)
  else on_Response_Header (fun hd => fasthttp.Set_ hd key value).

Definition DeleteResponseHeader (key : string) : ResMod :=
  on_Response_Header (fun hd => fasthttp.Del hd key).

Definition BypassCSP : ResMod :=
  Mod (fun e h =>
    rqm.effect e h
      [CallAddResMods
         [ModifyResponseHeader "Access-Control-Allow-Origin" "*";
          ModifyResponseHeader "Access-Control-Expose-Headers" "*";
          ModifyResponseHeader "Access-Control-Allow-Credentials" "true";
          ModifyResponseHeader "Access-Control-Allow-Methods" ""]]
      (Returns None)).

End header.

End rsm.

(** ** A reference instance of the library

    Used by the worked examples only.  [QueryUnescape] follows
    [net/url] on printable ASCII.  [Parse] and [URL_String] follow it
    on the strings the examples use: printable ASCII without fragment,
    user information, percent escape, port or bracketed host. *)

Module reference.

(** The double quote character, as a string. *)
Definition dquote : string := String (ascii_of_nat 34) EmptyString.

(** [strings.Cut] on a one-byte separator. *)
Fixpoint cut (sep : ascii) (s : string) : string * option string :=
  match s with
  | EmptyString => (EmptyString, None)
  | String c rest =>
      if Ascii.eqb c sep then (EmptyString, Some rest)
      else let (before, after) := cut sep rest in (String c before, after)
  end.

Definition contains (sep : ascii) (s : string) : bool :=
  match snd (cut sep s) with Some _ => true | None => false end.

Definition is_letter (c : ascii) : bool :=
  let n := nat_of_ascii c in
  orb (andb (Nat.leb 97 n) (Nat.leb n 122)) (andb (Nat.leb 65 n) (Nat.leb n 90)).

Definition is_scheme_extra (c : ascii) : bool :=
  let n := nat_of_ascii c in
  orb (andb (Nat.leb 48 n) (Nat.leb n 57))
      (orb (Ascii.eqb c "+") (orb (Ascii.eqb c "-") (Ascii.eqb c "."))).

(** [getScheme]: [Ok (scheme, rest)], or the missing-scheme error. *)
Fixpoint getScheme_from (i : nat) (seen rest whole : string)
  : Result (string * string) :=
  match rest with
  | EmptyString => Ok (EmptyString, whole)
  | String c rest' =>
      if is_letter c then getScheme_from (S i) (seen +++ String c EmptyString) rest' whole
      else if is_scheme_extra c then
        if Nat.eqb i 0 then Ok (EmptyString, whole)
        else getScheme_from (S i) (seen +++ String c EmptyString) rest' whole
      else if Ascii.eqb c ":" then
        if Nat.eqb i 0 then Err "missing protocol scheme"
        else Ok (seen, rest')
      else Ok (EmptyString, whole)
  end.

Definition getScheme (rawURL : string) : Result (string * string) :=
  getScheme_from 0 EmptyString rawURL rawURL.

Fixpoint ToLower (s : string) : string :=
  match s with
  | EmptyString => EmptyString
  | String c rest => String (http.lower c) (ToLower rest)
  end.

Definition with_path (scheme host path query : string) (omit force : bool)
  : url.URL :=
  {| url.Scheme := scheme; url.Opaque := ""; url.User := None;
     url.Host := host; url.Path := path; url.RawPath := "";
     url.OmitHost := omit; url.ForceQuery := force;
     url.RawQuery := query; url.Fragment := ""; url.RawFragment := "" |}.

Definition opaque (scheme rest query : string) (force : bool) : url.URL :=
  {| url.Scheme := scheme; url.Opaque := rest; url.User := None;
     url.Host := ""; url.Path := ""; url.RawPath := "";
     url.OmitHost := false; url.ForceQuery := force;
     url.RawQuery := query; url.Fragment := ""; url.RawFragment := "" |}.

(** [url.Parse]. *)
Definition Parse (rawURL : string) : Result url.URL :=
  let failure msg := Err ("parse " +++ dquote +++ rawURL +++ dquote +++ ": " +++ msg) in
  if String.eqb rawURL "*" then Ok (with_path "" "" "*" "" false false) else
  match getScheme rawURL with
  | Err msg => failure msg
  | Ok (scheme0, rest0) =>
      let scheme := ToLower scheme0 in
      let (rest, q) := cut "?" rest0 in
      let query := match q with Some s => s | None => "" end in
      let force := match q with Some EmptyString => true | _ => false end in
      if andb (negb (String.prefix "/" rest)) (negb (String.eqb scheme ""))
      then Ok (opaque scheme rest query force)
      else if andb (negb (String.prefix "/" rest)) (contains ":" (fst (cut "/" rest)))
      then failure "first path segment in URL cannot contain colon"
      else if andb (String.prefix "//" rest)
                   (orb (negb (String.eqb scheme "")) (negb (String.prefix "///" rest)))
      then
        let authority := String.substring 2 (String.length rest - 2) rest in
        match cut "/" authority with
        | (host, Some path) => Ok (with_path scheme host (String "/" path) query false force)
        | (host, None) => Ok (with_path scheme host "" query false force)
        end
      else
        Ok (with_path scheme "" rest query
              (andb (negb (String.eqb scheme "")) (String.prefix "/" rest)) force)
  end.

(** The [String] method of a URL, the receiver not [nil]. *)
Definition URL_String (u : url.URL) : string :=
  let scheme :=
    if String.eqb (url.Scheme u) "" then "" else url.Scheme u +++ ":" in
  let body :=
    if negb (String.eqb (url.Opaque u) "") then url.Opaque u
    else
      let authority :=
        if orb (negb (String.eqb (url.Scheme u) ""))
               (negb (String.eqb (url.Host u) ""))
        then
          if andb (url.OmitHost u) (String.eqb (url.Host u) "") then ""
          else
            (if orb (negb (String.eqb (url.Host u) ""))
                    (negb (String.eqb (url.Path u) ""))
             then "//" else "") +++ url.Host u
        else "" in
      let slash :=
        if andb (negb (String.eqb (url.Path u) ""))
                (andb (negb (String.prefix "/" (url.Path u)))
                      (negb (String.eqb (url.Host u) "")))
        then "/" else "" in
      let dot :=
        if andb (String.eqb (scheme +++ authority +++ slash) "")
                (contains ":" (fst (cut "/" (url.Path u))))
        then "./" else "" in
      authority +++ slash +++ dot +++ url.Path u in
  let query :=
    if orb (url.ForceQuery u) (negb (String.eqb (url.RawQuery u) ""))
    then "?" +++ url.RawQuery u else "" in
  let fragment :=
    if String.eqb (url.Fragment u) "" then "" else "#" +++ url.Fragment u in
  scheme +++ body +++ query +++ fragment.

(** [unhex]: the value of a hexadecimal digit. *)
Definition unhex (c : ascii) : option nat :=
  let n := nat_of_ascii c in
  if andb (Nat.leb 48 n) (Nat.leb n 57) then Some (n - 48)
  else if andb (Nat.leb 97 n) (Nat.leb n 102) then Some (n - 97 + 10)
  else if andb (Nat.leb 65 n) (Nat.leb n 70) then Some (n - 65 + 10)
  else None.

Definition EscapeError (s : string) : string :=
  "invalid URL escape " +++ dquote +++ s +++ dquote.

(** [url.QueryUnescape]: a percent sign and two hexadecimal digits
    become the byte they encode, [+] becomes a space; a percent sign
    followed by anything else is an error that quotes it. *)
Fixpoint QueryUnescape (s : string) : Result string :=
  match s with
  | EmptyString => Ok EmptyString
  | String c rest =>
      if Ascii.eqb c "%" then
        match rest with
        | String hi (String lo rest') =>
            match unhex hi, unhex lo with
            | Some a, Some b =>
                match QueryUnescape rest' with
                | Ok t => Ok (String (ascii_of_nat (16 * a + b)) t)
                | Err e => Err e
                end
            | _, _ => Err (EscapeError (String c (String hi (String lo EmptyString))))
            end
        | _ => Err (EscapeError s)
        end
      else
        match QueryUnescape rest with
        | Ok t => Ok (String (if Ascii.eqb c "+" then " "%char else c) t)
        | Err e => Err e
        end
  end.

(** A client whose upstream is the function [upstream]; a [nil] client
    or request panics. *)
Definition Do (upstream : http.Request -> Result http.Response)
           (c : option http.Client) (r : option http.Request)
  : Outcome (Result http.Response) :=
  match c, r with
  | Some _, Some req => Returns (upstream req)
  | _, _ => Panics
  end.

Definition library (upstream : http.Request -> Result http.Response) : Library :=
  Build_Library QueryUnescape Parse URL_String (Do upstream).

End reference.


(** ** Worked exchanges *)

Module scenario.

(** An upstream that answers every request with the same page. *)
Definition page : list byte := list_byte_of_string "<html>upstream</html>".

Definition upstream (r : http.Request) : Result http.Response :=
  Ok {| http.StatusCode := 200; http.RespBody := Ok page |}.

#[global] Instance lib : Library := reference.library upstream.

(** For the examples, response headers are kept as [net/http] keeps
    them: one value under the canonical key. *)
#[global] Instance response_headers : fasthttp.Methods :=
  {| fasthttp.normalizeHeaderKey := http.CanonicalMIMEHeaderKey;
     fasthttp.Set_ := http.Set_ |}.

(** The context of an inbound request: its wildcard capture and its
    referer header; the response is still empty, with status 200. *)
Definition inbound (capture referer : string) : fiber.Ctx :=
  {| fiber.ParamsStar := capture; fiber.Referer := referer;
     fiber.Status := 200; fiber.ResponseHeader := [];
     fiber.ResponseBody := [] |}.

Definition server (capture referer : string) : World :=
  {| heap := fun _ => inbound capture referer; trace := [] |}.

(** A new chain, its client set by [DefaultClient]. *)
Definition fresh : ProxyChain := NewProxyChain DefaultClient.

(** The handler assigns an outbound request to the exported field
    [Req]; its header map is empty. *)
Definition outbound (p : ProxyChain) : ProxyChain :=
  assign p
    {| eCtx := Ctx p; eURL := URL p; eClient := Client p;
       eReq := Some {| http.ReqHeader := Some [] |};
       eResp := Resp p; eBody := Body p |}.

(** A chain that masquerades as Googlebot. *)
Definition bot : ProxyChain :=
  SetReqMods (outbound fresh) [rqm.MasqueradeAsGoogleBot].

(** [p.SetCtx(ctx).Execute()]. *)
Definition exchange (ctx : CtxPtr) : Go error :=
  SetCtx ctx ;; Execute.

(** A library whose client cannot reach the upstream, and one whose
    upstream breaks off while the body is read. *)
Definition unreachable : Library :=
  reference.library (fun _ => Err "dial tcp: connection refused").

Definition truncated : Library :=
  reference.library
    (fun _ => Ok {| http.StatusCode := 200;
                    http.RespBody := Err "unexpected EOF" |}).

(** A modifier that replaces the buffered body, one that refuses, and
    one that does nothing. *)
Definition rewrite_body (body : list byte) : ResMod :=
  Mod (fun e h =>
    rqm.effect
      {| eCtx := eCtx e; eURL := eURL e; eClient := eClient e;
         eReq := eReq e; eResp := eResp e; eBody := Some body |}
      h [] (Returns None)).

Definition refuse (msg : string) : Modifier :=
  Mod (fun e h => rqm.effect e h [] (Returns (Some msg))).

Definition idle : Modifier :=
  Mod (fun e h => rqm.effect e h [] (Returns None)).

(** The chain [p] holding an outbound request, bound by [SetCtx] to the
    capture [https://example.com/a?x=1]. *)
Definition ready (lib : Library) (p : ProxyChain) : ProxyChain :=
  fst (snd (@SetCtx lib 0 (outbound p)
              (server "https://example.com/a?x=1" ""))).

End scenario.

(** * Vocabulary of the properties *)

(** The chain and the world a computation leaves, however it ends. *)
Definition chain_after {A} (r : Outcome A * (ProxyChain * World)) : ProxyChain :=
  fst (snd r).

Definition world_after {A} (r : Outcome A * (ProxyChain * World)) : World :=
  snd (snd r).

Definition outcome {A} (r : Outcome A * (ProxyChain * World)) : Outcome A :=
  fst r.

Section vocabulary.

Context {L : Library}.

(** The world once [abort] has written its report to context [c]. *)
Definition reported (w : World) (c : CtxPtr) (e : string) : World :=
  {| heap := store (store (heap w) c (fiber.SetStatusCode (heap w c) 500)) c
               (fiber.SendString (fiber.SetStatusCode (heap w c) 500) e);
     trace := trace w ++ [EvLog e] |}.

Definition report (u : url.URL) (err : string) : string :=
  "ProxyChain error for '" +++ URL_String u +++ "': " +++ err.

(** What [Execute] makes of the result of [_execute]: it sends the
    buffered body when there is no error, and resets in every case. *)
Definition finish (r : Outcome error * (ProxyChain * World))
  : Outcome error * (ProxyChain * World) :=
  match r with
  | (Returns (Some e), (p, w)) => (Returns (Some e), (_reset p, w))
  | (Returns None, (p, w)) =>
      match Ctx p with
      | Some c =>
          (Returns None,
           (_reset p,
            set_heap w (store (heap w) c
              (fiber.Send (heap w c)
                 match Body p with Some b => b | None => [] end))))
      | None => (Panics, (_reset p, w))
      end
  | (Panics, (p, w)) => (Panics, (_reset p, w))
  end.

End vocabulary.

(** The fields of one exchange, all [nil]. *)
Definition cleared (p : ProxyChain) : Prop :=
  Ctx p = None /\ URL p = None /\ Req p = None /\ Resp p = None /\
  Body p = None /\ _abort_err p = None.

(** The configuration of the pipeline is the same in two chains. *)
Definition same_configuration (p p' : ProxyChain) : Prop :=
  reqMods p' = reqMods p /\ resMods p' = resMods p /\
  Client p' = Client p /\ ruleset p' = ruleset p /\ verbose p' = verbose p.

(** A modifier that calls no method of the chain and keeps its client. *)
Definition quiet (m : Modifier) : Prop :=
  forall (e : Exported) (h : CtxHeap),
    calls (run m e h) = [] /\ eClient (fields (run m e h)) = eClient e.

(** A modifier that never replaces the request-modifier list, and
    enqueues only modifiers of the same kind. *)
Inductive Appending : Modifier -> Prop :=
| appending (m : Modifier) :
    (forall (e : Exported) (h : CtxHeap),
        Forall AppendingCall (calls (run m e h))) ->
    Appending m
with AppendingCall : Call Modifier -> Prop :=
| appending_AddReqMods (ms : list Modifier) :
    Forall Appending ms -> AppendingCall (CallAddReqMods ms)
| appending_SetResMods (ms : list Modifier) :
    Forall Appending ms -> AppendingCall (CallSetResMods ms)
| appending_AddResMods (ms : list Modifier) :
    Forall Appending ms -> AppendingCall (CallAddResMods ms)
| appending_AddRuleset (rs : option RuleSet) :
    AppendingCall (CallAddRuleset rs)
| appending_SetVerbose :
    AppendingCall CallSetVerbose.

(** The request-modifier list of [p] extends [base], and every modifier
    the chain holds is appending. *)
Definition grown (base : list ReqMod) (p : ProxyChain) : Prop :=
  (exists added, reqMods p = base ++ added) /\
  Forall Appending (reqMods p) /\
  Forall Appending (resMods p).

(** A modifier that leaves the outbound request of the chain as it
    finds it. *)
Definition keeps_Req (m : Modifier) : Prop :=
  forall (e : Exported) (h : CtxHeap), eReq (fields (run m e h)) = eReq e.

(** * Properties *)

Ltac go_unfold :=
  unfold bind, ret, panic, defer, get, getw, modify, modifyw, deref.

Lemma scheme_set (s : string) : s <> "" -> String.eqb s "" = false.
Proof. intro H. now apply String.eqb_neq. Qed.

Lemma store_same (h : CtxHeap) (c : CtxPtr) (v : fiber.Ctx) : store h c v c = v.
Proof. unfold store. now rewrite Nat.eqb_refl. Qed.

(** ** A modifier call leaves the trace alone *)

Lemma call_trace (m : Modifier) (p : ProxyChain) (w : World) :
  trace (world_after (call m p w)) = trace w.
Proof. reflexivity. Qed.

Section abort_facts.

Context {L : Library}.

(** With a bound context and a target URL, [abort] answers 500 with the
    report, logs it, returns it and resets the chain. *)
Lemma abort_reports (err : string) (p : ProxyChain) (w : World)
      (c : CtxPtr) (u : url.URL) :
  Ctx p = Some c -> URL p = Some u ->
  abort err p w = (Returns (report u err), (_reset p, reported w c (report u err))).
Proof.
  intros HC HU. unfold abort. go_unfold. simpl. rewrite HC. simpl.
  rewrite HU. simpl. unfold reported, report, set_heap, emit. simpl.
  rewrite store_same. reflexivity.
Qed.

(** Without a context, [abort] panics on [p.Ctx.Response()]. *)
Lemma abort_unbound (err : string) (p : ProxyChain) (w : World) :
  Ctx p = None -> abort err p w = (Panics, (_reset p, w)).
Proof.
  intros HC. unfold abort. go_unfold. simpl. rewrite HC. reflexivity.
Qed.

(** Without a target URL, [abort] panics on [p.URL.String()], the status
    already set and nothing sent. *)
Lemma abort_no_URL (err : string) (p : ProxyChain) (w : World) (c : CtxPtr) :
  Ctx p = Some c -> URL p = None ->
  abort err p w =
  (Panics, (_reset p,
            set_heap w (store (heap w) c (fiber.SetStatusCode (heap w c) 500)))).
Proof.
  intros HC HU. unfold abort. go_unfold. simpl. rewrite HC. simpl.
  rewrite HU. reflexivity.
Qed.

(** In every case [abort] resets the chain and adds log lines only. *)
Lemma abort_cases (err : string) (p : ProxyChain) (w : World) :
  exists o w' lines,
    abort err p w = (o, (_reset p, w')) /\
    trace w' = trace w ++ map EvLog lines.
Proof.
  destruct (Ctx p) as [c|] eqn:HC.
  - destruct (URL p) as [u|] eqn:HU.
    + exists (Returns (report u err)), (reported w c (report u err)), [report u err].
      split; [now apply abort_reports | reflexivity].
    + exists Panics,
        (set_heap w (store (heap w) c (fiber.SetStatusCode (heap w c) 500))), [].
      split; [now apply abort_no_URL |].
      simpl. now rewrite app_nil_r.
  - exists Panics, w, []. split; [now apply abort_unbound |].
    simpl. now rewrite app_nil_r.
Qed.

End abort_facts.

(** ** The loops, one iteration at a time *)

Section loop_facts.

Context {L : Library}.

Lemma range_mods_cons (ev : nat -> Event) (i : nat) (m : Modifier)
      (rest : list Modifier) (p : ProxyChain) (w : World) :
  range_mods ev i (m :: rest) p w =
  let r := call m p (emit w (ev i)) in
  match outcome r with
  | Panics => (Panics, snd r)
  | Returns (Some msg) =>
      (e <- abort msg ;; ret (Some e)) (chain_after r) (world_after r)
  | Returns None => range_mods ev (S i) rest (chain_after r) (world_after r)
  end.
Proof.
  simpl. unfold bind at 1. unfold modifyw. unfold bind at 1.
  unfold call, outcome, chain_after, world_after. simpl.
  destruct (result (run m (exported p) (heap w))) as [[msg|]|]; reflexivity.
Qed.

(** A loop over [pre ++ rest] is the loop over [pre] and, when that ran
    to its end, the loop over [rest]. *)
Lemma range_mods_app (ev : nat -> Event) (pre rest : list Modifier) :
  forall (i : nat) (p : ProxyChain) (w : World),
    range_mods ev i (pre ++ rest) p w =
    match range_mods ev i pre p w with
    | (Returns None, (p', w')) => range_mods ev (i + length pre) rest p' w'
    | r => r
    end.
Proof.
  induction pre as [|m pre IH]; intros i p w.
  - simpl. now rewrite Nat.add_0_r.
  - rewrite <- app_comm_cons. rewrite !range_mods_cons. cbv zeta.
    destruct (outcome (call m p (emit w (ev i)))) as [[msg|]|].
    + unfold bind, ret.
      destruct (abort msg _ _) as [[e|] [p' w']]; reflexivity.
    + rewrite IH. simpl length. now rewrite Nat.add_succ_r.
    + destruct (snd (call m p (emit w (ev i)))); reflexivity.
Qed.

(** A loop that ran to its end called every modifier of its slice, and
    did nothing else the trace records. *)
Lemma range_mods_completed (ev : nat -> Event) (ms : list Modifier) :
  forall (i : nat) (p : ProxyChain) (w : World) (p' : ProxyChain) (w' : World),
    range_mods ev i ms p w = (Returns None, (p', w')) ->
    trace w' = trace w ++ map ev (seq i (length ms)).
Proof.
  induction ms as [|m ms IH]; intros i p w p' w' H.
  - simpl in H. inversion H. simpl. now rewrite app_nil_r.
  - rewrite range_mods_cons in H. cbv zeta in H.
    destruct (outcome (call m p (emit w (ev i)))) as [[msg|]|].
    + unfold bind, ret in H.
      destruct (abort msg _ _) as [[e|] [p1 w1]]; discriminate.
    + apply IH in H. rewrite H, call_trace. simpl.
      now rewrite <- app_assoc.
    + discriminate.
Qed.

(** However a loop ends, it called a prefix of its slice, in order, and
    apart from that only logged. *)
Lemma range_mods_events (ev : nat -> Event) (ms : list Modifier) :
  forall (i : nat) (p : ProxyChain) (w : World),
  exists (n : nat) (lines : list string),
    n <= length ms /\
    trace (world_after (range_mods ev i ms p w)) =
    trace w ++ map ev (seq i n) ++ map EvLog lines.
Proof.
  induction ms as [|m ms IH]; intros i p w.
  - exists 0, []. split; [lia|]. simpl. now rewrite app_nil_r.
  - rewrite range_mods_cons. cbv zeta.
    destruct (outcome (call m p (emit w (ev i)))) as [[msg|]|] eqn:R.
    + destruct (abort_cases msg (chain_after (call m p (emit w (ev i))))
                            (world_after (call m p (emit w (ev i)))))
        as (o & w1 & lines & Hab & Htr).
      exists 1, lines. split; [simpl; lia|].
      unfold bind, ret. rewrite Hab.
      destruct o; unfold world_after at 1; simpl snd;
        rewrite Htr, call_trace; simpl; now rewrite <- app_assoc.
    + destruct (IH (S i) (chain_after (call m p (emit w (ev i))))
                   (world_after (call m p (emit w (ev i)))))
        as (n & lines & Hn & Htr).
      exists (S n), lines. split; [simpl; lia|].
      rewrite Htr, call_trace. simpl. now rewrite <- app_assoc.
    + exists 1, []. split; [simpl; lia|]. reflexivity.
Qed.

End loop_facts.

(** ** Binding a context and executing without one *)

Section exchange_facts.

Context {L : Library}.

Lemma _validate_bound (p : ProxyChain) (w : World) (c : CtxPtr) :
  Ctx p = Some c -> _validate_ctx_is_set p w = (Returns tt, (p, w)).
Proof.
  intro HC. unfold _validate_ctx_is_set. go_unfold. now rewrite HC.
Qed.

(** [_validate_ctx_is_set] on a chain without a context calls [abort],
    which dereferences that missing context. *)
Lemma _validate_unbound (p : ProxyChain) (w : World) :
  Ctx p = None -> _validate_ctx_is_set p w = (Panics, (_reset p, w)).
Proof.
  intro HC. unfold _validate_ctx_is_set. unfold bind at 1. unfold get.
  rewrite HC. unfold bind. now rewrite abort_unbound.
Qed.

Lemma _execute_unbound (p : ProxyChain) (w : World) :
  Ctx p = None -> _execute p w = (Panics, (_reset p, w)).
Proof.
  intro HC. unfold _execute. unfold bind at 1. now rewrite _validate_unbound.
Qed.

Lemma Execute_unbound (p : ProxyChain) (w : World) :
  Ctx p = None -> Execute p w = (Panics, (_reset p, w)).
Proof.
  intro HC. unfold Execute, defer. unfold bind at 1.
  now rewrite _execute_unbound.
Qed.

(** An absolute capture becomes the target URL as parsed. *)
Lemma extractUrl_absolute (p : ProxyChain) (w : World) (c : CtxPtr) (u : url.URL) :
  Ctx p = Some c ->
  Parse (unescaped (fiber.ParamsStar (heap w c))) = Ok u ->
  url.Scheme u <> "" ->
  extractUrl p w = (Returns None, (set_URL p (Some u), w)).
Proof.
  intros HC HP HS. unfold extractUrl. go_unfold. rewrite HC. simpl.
  rewrite HP. now rewrite (scheme_set HS).
Qed.

(** A relative capture never resolves: whatever the referer, the last
    test of [extractUrl] reads the scheme of the capture again. *)
Lemma extractUrl_relative (p : ProxyChain) (w : World) (c : CtxPtr) (u : url.URL) :
  Ctx p = Some c ->
  Parse (unescaped (fiber.ParamsStar (heap w c))) = Ok u ->
  url.Scheme u = "" ->
  exists (msg : string) (p' : ProxyChain),
    extractUrl p w = (Returns (Some msg), (p', w)).
Proof.
  intros HC HP HS. unfold extractUrl. go_unfold. rewrite HC. simpl.
  rewrite HP, HS. simpl.
  destruct (Parse (fiber.Referer (heap w c))) as [r|e]; [|eauto].
  destruct (String.eqb (url.Host r) ""); [eauto|].
  destruct (Parse (TrimPrefix (url.Path r) "/")) as [real|e]; eauto.
Qed.

(** With an unusable referer the chain is not even touched. *)
Lemma extractUrl_referer_unusable (p : ProxyChain) (w : World) (c : CtxPtr)
      (u : url.URL) :
  Ctx p = Some c ->
  Parse (unescaped (fiber.ParamsStar (heap w c))) = Ok u ->
  url.Scheme u = "" ->
  ((exists e, Parse (fiber.Referer (heap w c)) = Err e) \/
   (exists r, Parse (fiber.Referer (heap w c)) = Ok r /\ url.Host r = "")) ->
  exists cause : error,
    extractUrl p w =
    (Returns (Some ("error parsing referer URL from req: '"
                    +++ unescaped (fiber.ParamsStar (heap w c))
                    +++ "': " +++ fmt_v cause)),
     (p, w)).
Proof.
  intros HC HP HS HR. unfold extractUrl. go_unfold. rewrite HC. simpl.
  rewrite HP, HS. simpl.
  destruct HR as [[e He]|[r [Hr Hh]]].
  - rewrite He. now exists (Some e).
  - rewrite Hr, Hh. simpl. now exists None.
Qed.

(** When resolution fails, [SetCtx] aborts and caches what [abort]
    returned. *)
Lemma SetCtx_aborts (c : CtxPtr) (p : ProxyChain) (w : World)
      (msg : string) (p1 : ProxyChain) (w1 : World) :
  extractUrl (set_Ctx p (Some c)) w = (Returns (Some msg), (p1, w1)) ->
  SetCtx c p w =
  match abort msg p1 w1 with
  | (Returns e, (p2, w2)) => (Returns tt, (set_abort_err p2 (Some e), w2))
  | (Panics, s) => (Panics, s)
  end.
Proof.
  intro HE. unfold SetCtx. unfold bind at 1. unfold modify at 1.
  unfold bind at 1. rewrite HE. unfold bind, modify.
  destruct (abort msg p1 w1) as [[e|] [p2 w2]]; reflexivity.
Qed.

(** It leaves the chain without a context: [abort] reset it, whether it
    could report or panicked. *)
Lemma SetCtx_failed (c : CtxPtr) (p : ProxyChain) (w : World)
      (msg : string) (p1 : ProxyChain) (w1 : World) :
  extractUrl (set_Ctx p (Some c)) w = (Returns (Some msg), (p1, w1)) ->
  exists lines,
    Ctx (chain_after (SetCtx c p w)) = None /\
    reqMods (chain_after (SetCtx c p w)) = reqMods p1 /\
    trace (world_after (SetCtx c p w)) = trace w1 ++ map EvLog lines.
Proof.
  intro HE. rewrite (SetCtx_aborts c p w HE).
  destruct (abort_cases msg p1 w1) as (o & w2 & lines & Hab & Htr).
  rewrite Hab. exists lines. destruct o; simpl; auto.
Qed.

(** After a failed [SetCtx], [Execute] never reaches its test of the
    cached error: it panics in [_validate_ctx_is_set] and only resets. *)
Lemma Execute_after_failed_SetCtx (c : CtxPtr) (p : ProxyChain) (w : World)
      (msg : string) (p1 : ProxyChain) (w1 : World) :
  extractUrl (set_Ctx p (Some c)) w = (Returns (Some msg), (p1, w1)) ->
  Execute (chain_after (SetCtx c p w)) (world_after (SetCtx c p w)) =
  (Panics, (_reset (chain_after (SetCtx c p w)), world_after (SetCtx c p w))).
Proof.
  intro HE. destruct (SetCtx_failed c p w HE) as (lines & HC & _).
  now apply Execute_unbound.
Qed.

End exchange_facts.

(** ** [_execute] and [Execute], unfolded *)

Section execute_facts.

Context {L : Library}.

(** Every [return nil, p.abort(err)]. *)
Lemma abort_then_cases (err : string) (p : ProxyChain) (w : World) :
  exists o w' lines,
    (e <- abort err ;; ret (Some e)) p w = (o, (_reset p, w')) /\
    o <> Returns None /\
    trace w' = trace w ++ map EvLog lines.
Proof.
  destruct (abort_cases err p w) as (o & w' & lines & Hab & Htr).
  unfold bind, ret. rewrite Hab.
  destruct o as [e|].
  - exists (Returns (Some e)), w', lines. repeat split; [discriminate | exact Htr].
  - exists Panics, w', lines. repeat split; [discriminate | exact Htr].
Qed.

Lemma dispatch_eq (p : ProxyChain) (w : World) :
  dispatch p w =
  let w0 := emit w (EvDo (Client p) (Req p)) in
  match Do (Client p) (Req p) with
  | Panics => (Panics, (p, w0))
  | Returns (Err err) => (e <- abort err ;; ret (Some e)) p w0
  | Returns (Ok resp) =>
      match ReadAll resp with
      | Err err => (e <- abort err ;; ret (Some e)) (set_Resp p (Some resp)) w0
      | Ok body =>
          match range_resMods 0 (resMods p)
                  (set_Body (set_Resp p (Some resp)) (Some body)) w0 with
          | (Returns aborted, s) => (Returns aborted, s)
          | (Panics, s) => (Panics, s)
          end
      end
  end.
Proof.
  unfold dispatch. unfold bind at 1. unfold get. unfold bind at 1.
  unfold modifyw at 1. cbv zeta.
  destruct (Do (Client p) (Req p)) as [[resp|err]|]; [| reflexivity | reflexivity].
  unfold bind at 1. unfold modify at 1.
  destruct (ReadAll resp) as [body|err]; [| reflexivity].
  unfold bind at 1. unfold modify at 1. unfold bind at 1. unfold bind at 1.
  simpl resMods.
  destruct (range_resMods 0 (resMods p) _ _) as [[[e|]|] s];
    try destruct s; reflexivity.
Qed.

Lemma _execute_bound (p : ProxyChain) (w : World) (c : CtxPtr) :
  Ctx p = Some c ->
  _execute p w =
  match _abort_err p with
  | Some e => (Returns (Some e), (p, w))
  | None =>
      match URL p with
      | None => (Panics, (p, w))
      | Some u =>
          if String.eqb (url.Scheme u) "" then
            (Returns (Some "request url not set or invalid. Check ProxyChain ReqMods for issues"),
             (p, w))
          else
            match range_reqMods 0 (reqMods p) p w with
            | (Returns (Some e), s) => (Returns (Some e), s)
            | (Returns None, (p1, w1)) => dispatch p1 w1
            | (Panics, s) => (Panics, s)
            end
      end
  end.
Proof.
  intro HC. unfold _execute. unfold bind at 1.
  rewrite (_validate_bound p w HC). unfold bind at 1. unfold get.
  destruct (_abort_err p) as [e|]; [reflexivity|]. rewrite HC.
  destruct (URL p) as [u|]; [|reflexivity]. unfold bind at 1. simpl deref.
  unfold ret at 1.
  destruct (String.eqb (url.Scheme u) ""); [reflexivity|].
  unfold bind at 1.
  destruct (range_reqMods 0 (reqMods p) p w) as [[[e|]|] [p1 w1]]; reflexivity.
Qed.

Lemma Execute_eq (p : ProxyChain) (w : World) :
  Execute p w = finish (_execute p w).
Proof.
  unfold Execute, defer, finish. unfold bind at 1.
  destruct (_execute p w) as [[[e|]|] [p' w']]; try reflexivity.
  unfold Ctx_Send_Body. go_unfold. destruct (Ctx p'); reflexivity.
Qed.

Lemma ExecuteAPIContent_eq (p : ProxyChain) (w : World) :
  ExecuteAPIContent p w = Execute p w.
Proof. reflexivity. Qed.

Lemma finish_cleared (r : Outcome error * (ProxyChain * World)) :
  chain_after (finish r) = _reset (chain_after r).
Proof.
  destruct r as [[[e|]|] [p w]]; try reflexivity.
  unfold finish. destruct (Ctx p); reflexivity.
Qed.

End execute_facts.

(** ** Properties of the chain that an exchange keeps *)

Section invariants.

Context {L : Library}.

Variable I : ProxyChain -> Prop.
Variable G : Modifier -> Prop.

Hypothesis I_reset : forall p, I p -> I (_reset p).
Hypothesis I_set_Resp : forall p v, I p -> I (set_Resp p v).
Hypothesis I_set_Body : forall p v, I p -> I (set_Body p v).
Hypothesis I_call : forall m p w, G m -> I p -> I (chain_after (call m p w)).
Hypothesis I_resMods : forall p, I p -> Forall G (resMods p).

Lemma abort_then_keeps (err : string) (p : ProxyChain) (w : World) :
  I p -> I (chain_after ((e <- abort err ;; ret (Some e)) p w)).
Proof.
  intro Hp. destruct (abort_then_cases err p w) as (o & w' & lines & Hab & _).
  rewrite Hab. now apply I_reset.
Qed.

Lemma range_mods_keeps (ev : nat -> Event) (ms : list Modifier) :
  Forall G ms ->
  forall (i : nat) (p : ProxyChain) (w : World),
    I p -> I (chain_after (range_mods ev i ms p w)).
Proof.
  induction 1 as [|m ms Hm Hms IH]; intros i p w Hp.
  - exact Hp.
  - rewrite range_mods_cons. cbv zeta.
    pose proof (I_call (emit w (ev i)) Hm Hp) as Hc.
    destruct (outcome (call m p (emit w (ev i)))) as [[msg|]|].
    + now apply abort_then_keeps.
    + now apply IH.
    + exact Hc.
Qed.

Lemma dispatch_keeps (p : ProxyChain) (w : World) :
  I p -> I (chain_after (dispatch p w)).
Proof.
  intro Hp. rewrite dispatch_eq. cbv zeta.
  destruct (Do (Client p) (Req p)) as [[resp|err]|].
  - destruct (ReadAll resp) as [body|err].
    + assert (Hb : I (set_Body (set_Resp p (Some resp)) (Some body)))
        by now apply I_set_Body, I_set_Resp.
      pose proof (range_mods_keeps EvResMod (I_resMods Hp) 0
                    (emit w (EvDo (Client p) (Req p))) Hb) as Hr.
      unfold range_resMods.
      destruct (range_mods EvResMod 0 (resMods p) _ _) as [[a|] s]; exact Hr.
    + now apply abort_then_keeps, I_set_Resp.
  - now apply abort_then_keeps.
  - exact Hp.
Qed.

(** The request loop from any position on, and the dispatch after it. *)
Lemma requests_then_dispatch_keeps (i : nat) (ms : list Modifier)
      (p : ProxyChain) (w : World) :
  I p -> Forall G ms ->
  I (chain_after
       match range_mods EvReqMod i ms p w with
       | (Returns (Some e), s) => (Returns (Some e), s)
       | (Returns None, (p1, w1)) => dispatch p1 w1
       | (Panics, s) => (Panics, s)
       end).
Proof.
  intros Hp Hg. pose proof (range_mods_keeps EvReqMod Hg i w Hp) as Hr.
  destruct (range_mods EvReqMod i ms p w) as [[[e|]|] [p1 w1]];
    try exact Hr.
  now apply dispatch_keeps.
Qed.

Lemma _execute_keeps (p : ProxyChain) (w : World) :
  I p -> Forall G (reqMods p) -> I (chain_after (_execute p w)).
Proof.
  intros Hp Hg. destruct (Ctx p) as [c|] eqn:HC.
  - rewrite (_execute_bound p w HC).
    destruct (_abort_err p); [exact Hp|].
    destruct (URL p) as [u|]; [|exact Hp].
    destruct (String.eqb (url.Scheme u) ""); [exact Hp|].
    now apply requests_then_dispatch_keeps.
  - rewrite (_execute_unbound p w HC). now apply I_reset.
Qed.

Lemma Execute_keeps (p : ProxyChain) (w : World) :
  I p -> Forall G (reqMods p) -> I (chain_after (Execute p w)).
Proof.
  intros Hp Hg. rewrite Execute_eq, finish_cleared.
  now apply I_reset, _execute_keeps.
Qed.

End invariants.

(** * The resolver *)

(** C6.  Let [reqUrl] be the wildcard capture URL-decoded, or the
    capture as it is when decoding fails.  When [reqUrl] parses as a URL
    with a scheme, [extractUrl] returns no error and the target URL of
    the chain is exactly that parsed URL; nothing else in the chain or
    the world changes. *)
Theorem absolute_capture_is_target {L : Library}
        (p : ProxyChain) (w : World) (c : CtxPtr) (reqUrl : string) (u : url.URL) :
  Ctx p = Some c ->
  (QueryUnescape (fiber.ParamsStar (heap w c)) = Ok reqUrl \/
   ((exists e, QueryUnescape (fiber.ParamsStar (heap w c)) = Err e) /\
    reqUrl = fiber.ParamsStar (heap w c))) ->
  Parse reqUrl = Ok u ->
  url.Scheme u <> "" ->
  extractUrl p w = (Returns None, (set_URL p (Some u), w)) /\
  URL (chain_after (extractUrl p w)) = Some u.
Proof.
  intros HC HD HP HS.
  assert (HR : unescaped (fiber.ParamsStar (heap w c)) = reqUrl).
  { unfold unescaped. destruct HD as [HD|[[e HD] HE]]; rewrite HD.
    - reflexivity.
    - now symmetry. }
  rewrite <- HR in HP.
  rewrite (extractUrl_absolute p w HC HP HS).
  split; reflexivity.
Qed.

(** Two captures.  The first is the URL-encoded form of
    [https://example.com/a?x=1]: it is decoded, and resolves to that
    URL.  The second, [https://example.com/a?x=100%], ends in a percent
    sign that escapes nothing: decoding fails, the capture is parsed as
    it is, and the target URL has the query [x=100%]. *)
Lemma absolute_capture_is_target_witness :
  let p := set_Ctx scenario.fresh (Some 0) in
  let encoded := "https%3A%2F%2Fexample.com%2Fa%3Fx%3D1" in
  let raw := "https://example.com/a?x=100%" in
  let u := reference.with_path "https" "example.com" "/a" "x=1" false false in
  let v := reference.with_path "https" "example.com" "/a" "x=100%" false false in
  (QueryUnescape encoded = Ok "https://example.com/a?x=1" /\
   extractUrl p (scenario.server encoded "") =
   (Returns None, (set_URL p (Some u), scenario.server encoded "")) /\
   URL (chain_after (extractUrl p (scenario.server encoded ""))) = Some u) /\
  ((exists e, QueryUnescape raw = Err e) /\
   extractUrl p (scenario.server raw "") =
   (Returns None, (set_URL p (Some v), scenario.server raw "")) /\
   URL (chain_after (extractUrl p (scenario.server raw ""))) = Some v).
Proof.
  intros p encoded raw u v.
  assert (HC : Ctx p = Some 0) by reflexivity.
  assert (HE : QueryUnescape encoded = Ok "https://example.com/a?x=1")
    by reflexivity.
  assert (HR : exists e, QueryUnescape raw = Err e)
    by (eexists; reflexivity).
  assert (HU : url.Scheme u <> "") by (simpl; discriminate).
  assert (HV : url.Scheme v <> "") by (simpl; discriminate).
  split.
  - split; [exact HE|].
    exact (@absolute_capture_is_target scenario.lib p (scenario.server encoded "")
             0 "https://example.com/a?x=1" u HC (or_introl HE) eq_refl HU).
  - split; [exact HR|].
    exact (@absolute_capture_is_target scenario.lib p (scenario.server raw "")
             0 raw v HC (or_intror (conj HR eq_refl)) eq_refl HV).
Defined.

(** C1.  On the capture [/images/pic.png] with the referer
    [https://proxyhost/https://example.com/page], [extractUrl] stores the
    reconstructed URL [https://example.com/images/pic.png] in the chain
    and then returns an error instead of succeeding. *)
Theorem relative_capture_scenario_fails :
  let p := set_Ctx scenario.fresh (Some 0) in
  let w := scenario.server "/images/pic.png"
                           "https://proxyhost/https://example.com/page" in
  extractUrl p w =
  (Returns (Some "ProxyChain failed to extract url from relative path: '/images/pic.png'"),
   (set_URL p (Some (url.literal "https" "example.com" "/images/pic.png" "")), w)).
Proof. reflexivity. Qed.

(** C7.  When the capture parses without a scheme and the referer header
    does not parse, or parses to a URL with an empty host (as the empty
    header does when it is absent), [extractUrl] returns the referer
    resolution error and leaves the chain untouched; [SetCtx] then only
    writes log lines, and an [Execute] that follows changes nothing in
    the world: the client is never asked to send a request. *)
Theorem relative_capture_needs_referer {L : Library}
        (p : ProxyChain) (w : World) (c : CtxPtr) (u : url.URL) :
  Parse (unescaped (fiber.ParamsStar (heap w c))) = Ok u ->
  url.Scheme u = "" ->
  ((exists e, Parse (fiber.Referer (heap w c)) = Err e) \/
   (exists r, Parse (fiber.Referer (heap w c)) = Ok r /\ url.Host r = "")) ->
  (exists cause : error,
     extractUrl (set_Ctx p (Some c)) w =
     (Returns (Some ("error parsing referer URL from req: '"
                     +++ unescaped (fiber.ParamsStar (heap w c))
                     +++ "': " +++ fmt_v cause)),
      (set_Ctx p (Some c), w))) /\
  (exists lines,
     trace (world_after (SetCtx c p w)) = trace w ++ map EvLog lines) /\
  world_after (Execute (chain_after (SetCtx c p w)) (world_after (SetCtx c p w)))
  = world_after (SetCtx c p w) /\
  (forall cl r, ~ In (EvDo cl r) (trace w) ->
     ~ In (EvDo cl r)
          (trace (world_after (Execute (chain_after (SetCtx c p w))
                                       (world_after (SetCtx c p w)))))).
Proof.
  intros HP HS HR.
  destruct (@extractUrl_referer_unusable L (set_Ctx p (Some c)) w c u
              eq_refl HP HS HR) as [cause HE].
  destruct (SetCtx_failed c p w HE) as (lines & _ & _ & Htr).
  pose proof (Execute_after_failed_SetCtx c p w HE) as HX.
  split; [now exists cause|].
  split; [now exists lines|].
  rewrite HX. split; [reflexivity|].
  intros cl r Hin. unfold world_after at 1. simpl snd.
  change (snd (snd (SetCtx c p w))) with (world_after (SetCtx c p w)).
  rewrite Htr. intro Hin'. apply in_app_or in Hin'.
  destruct Hin' as [Hin'|Hin']; [now apply Hin|].
  apply in_map_iff in Hin'. destruct Hin' as [line [Heq _]]. discriminate.
Qed.

(** The capture [/images/pic.png] with no referer header. *)
Lemma relative_capture_needs_referer_witness :
  let p := scenario.fresh in
  let w := scenario.server "/images/pic.png" "" in
  exists cause : error,
    extractUrl (set_Ctx p (Some 0)) w =
    (Returns (Some ("error parsing referer URL from req: '"
                    +++ unescaped (fiber.ParamsStar (heap w 0))
                    +++ "': " +++ fmt_v cause)),
     (set_Ctx p (Some 0), w)).
Proof.
  intros p w.
  refine (proj1 (@relative_capture_needs_referer scenario.lib p w 0
                   (reference.with_path "" "" "/images/pic.png" "" false false)
                   _ _ _)).
  - reflexivity.
  - reflexivity.
  - right. exists (reference.with_path "" "" "" "" false false).
    split; reflexivity.
Defined.

(** * The pipeline *)

(** C4.  On a chain that is ready to execute, when the request modifiers
    before position [k] return no error and the one at position [k]
    returns an error, the whole exchange adds to the trace exactly the
    calls of the request modifiers [0..k], followed by log lines: no
    later request modifier, no response modifier and no call of the
    client; and [Execute] does not return a [nil] error. *)
Theorem failing_reqMod_stops_exchange {L : Library}
        (p : ProxyChain) (w : World) (c : CtxPtr) (u : url.URL)
        (pre : list ReqMod) (m : ReqMod) (post : list ReqMod)
        (pk : ProxyChain) (wk : World) (msg : string) :
  Ctx p = Some c ->
  _abort_err p = None ->
  URL p = Some u ->
  url.Scheme u <> "" ->
  reqMods p = pre ++ m :: post ->
  range_reqMods 0 pre p w = (Returns None, (pk, wk)) ->
  result (run m (exported pk) (heap wk)) = Returns (Some msg) ->
  exists lines,
    trace (world_after (Execute p w)) =
    trace w ++ map EvReqMod (seq 0 (S (length pre))) ++ map EvLog lines /\
    outcome (Execute p w) <> Returns None.
Proof.
  intros HC HA HU HS Hmods Hpre Hres.
  rewrite Execute_eq, (_execute_bound p w HC), HA, HU, (scheme_set HS), Hmods.
  unfold range_reqMods in *. rewrite range_mods_app, Hpre, range_mods_cons.
  cbv zeta.
  assert (Ho : outcome (call m pk (emit wk (EvReqMod (0 + length pre))))
               = Returns (Some msg)) by exact Hres.
  rewrite Ho.
  destruct (abort_then_cases msg
              (chain_after (call m pk (emit wk (EvReqMod (0 + length pre)))))
              (world_after (call m pk (emit wk (EvReqMod (0 + length pre))))))
    as (o & w' & lines & Hab & Hno & Htr).
  rewrite Hab. exists lines.
  assert (Hw : trace w' =
               trace w ++ map EvReqMod (seq 0 (S (length pre))) ++ map EvLog lines).
  { rewrite Htr, call_trace. simpl trace.
    rewrite (range_mods_completed _ _ _ _ _ Hpre).
    rewrite seq_S, map_app. simpl. now rewrite <- !app_assoc. }
  destruct o as [[e|]|]; [| congruence |]; simpl; split; (exact Hw || discriminate).
Qed.

(** The second of two request modifiers fails. *)
Lemma failing_reqMod_stops_exchange_witness :
  let ok := Mod (fun e h => rqm.effect e h [] (Returns None)) in
  let ko := Mod (fun e h => rqm.effect e h [] (Returns (Some "refused"))) in
  let p := SetResMods
             (SetReqMods
                (chain_after (SetCtx 0 scenario.fresh
                                (scenario.server "https://example.com/a?x=1" "")))
                [ok; ko; ok])
             [ok] in
  let w := scenario.server "https://example.com/a?x=1" "" in
  exists lines,
    trace (world_after (Execute p w)) =
    trace w ++ map EvReqMod (seq 0 2) ++ map EvLog lines /\
    outcome (Execute p w) <> Returns None.
Proof.
  intros ok ko p w.
  refine (@failing_reqMod_stops_exchange scenario.lib p w 0
            (reference.with_path "https" "example.com" "/a" "x=1" false false)
            [ok] ko [ok] p (emit w (EvReqMod 0)) "refused" _ _ _ _ _ _ _).
  - reflexivity.
  - reflexivity.
  - reflexivity.
  - simpl. discriminate.
  - reflexivity.
  - reflexivity.
  - reflexivity.
Defined.

(** C8.  On a chain that is ready to execute, when the request
    modifiers all return no error, the client returns a response whose
    body reads completely, and the response-modifier list is empty when
    the response phase starts, [Execute] returns a [nil] error and the
    body of the response written to the inbound context is the buffered
    upstream body, byte for byte. *)
Theorem empty_resMods_deliver_upstream_body {L : Library}
        (p : ProxyChain) (w : World) (c : CtxPtr) (u : url.URL)
        (p1 : ProxyChain) (w1 : World) (c1 : CtxPtr)
        (resp : http.Response) (body : list byte) :
  Ctx p = Some c ->
  _abort_err p = None ->
  URL p = Some u ->
  url.Scheme u <> "" ->
  range_reqMods 0 (reqMods p) p w = (Returns None, (p1, w1)) ->
  resMods p1 = [] ->
  Ctx p1 = Some c1 ->
  Do (Client p1) (Req p1) = Returns (Ok resp) ->
  ReadAll resp = Ok body ->
  outcome (Execute p w) = Returns None /\
  fiber.ResponseBody (heap (world_after (Execute p w)) c1) = body.
Proof.
  intros HC HA HU HS Hreq Hres HC1 HDo Hread.
  rewrite Execute_eq, (_execute_bound p w HC), HA, HU, (scheme_set HS), Hreq.
  rewrite dispatch_eq. cbv zeta. rewrite HDo, Hread, Hres.
  simpl. rewrite HC1. simpl. rewrite store_same. split; reflexivity.
Qed.

(** A chain without modifiers relays the page of the upstream. *)
Lemma empty_resMods_deliver_upstream_body_witness :
  let w := scenario.server "https://example.com/a?x=1" "" in
  let p := chain_after (SetCtx 0 (SetReqMods scenario.bot []) w) in
  outcome (Execute p w) = Returns None /\
  fiber.ResponseBody (heap (world_after (Execute p w)) 0) = scenario.page.
Proof.
  intros w p.
  refine (@empty_resMods_deliver_upstream_body scenario.lib p w 0
            (reference.with_path "https" "example.com" "/a" "x=1" false false)
            p w 0
            {| http.StatusCode := 200; http.RespBody := Ok scenario.page |}
            scenario.page _ _ _ _ _ _ _ _ _).
  - reflexivity.
  - reflexivity.
  - reflexivity.
  - simpl. discriminate.
  - reflexivity.
  - reflexivity.
  - reflexivity.
  - reflexivity.
  - reflexivity.
Defined.

(** * Reuse of a chain *)

Lemma reset_cleared (p : ProxyChain) : cleared (_reset p).
Proof. repeat split. Qed.

Lemma reset_same_configuration (p : ProxyChain) : same_configuration p (_reset p).
Proof. repeat split. Qed.

Lemma quiet_call (base : ProxyChain) (m : Modifier) (p : ProxyChain) (w : World) :
  quiet m -> same_configuration base p ->
  same_configuration base (chain_after (call m p w)).
Proof.
  intros Hq (H1 & H2 & H3 & H4 & H5).
  destruct (Hq (exported p) (heap w)) as [Hcalls Hclient].
  change (chain_after (call m p w))
    with (fold_left perform (calls (run m (exported p) (heap w)))
            (assign p (fields (run m (exported p) (heap w))))).
  rewrite Hcalls. cbn [fold_left]. unfold same_configuration, assign.
  cbn [reqMods resMods Client ruleset verbose]. rewrite Hclient.
  repeat split; assumption.
Qed.

Lemma perform_grown (base : list ReqMod) (cs : list (Call Modifier)) :
  Forall AppendingCall cs ->
  forall p, grown base p -> grown base (fold_left perform cs p).
Proof.
  induction 1 as [|c cs Hc Hcs IH]; intros p Hp; [exact Hp|].
  simpl. apply IH. destruct Hp as ([added Hadd] & Hreq & Hres).
  destruct Hc as [ms Hms|ms Hms|ms Hms|rs|]; unfold grown; simpl.
  - split; [|split; [|exact Hres]].
    + exists (added ++ ms). now rewrite Hadd, app_assoc.
    + apply Forall_app. now split.
  - split; [now exists added|]. now split.
  - split; [now exists added|]. split; [exact Hreq|].
    apply Forall_app. now split.
  - split; [now exists added|]. now split.
  - split; [now exists added|]. now split.
Qed.

Lemma grown_call (base : list ReqMod) (m : Modifier) (p : ProxyChain) (w : World) :
  Appending m -> grown base p -> grown base (chain_after (call m p w)).
Proof.
  intros Hm Hp. destruct Hm as [m Hm].
  change (chain_after (call m p w))
    with (fold_left perform (calls (run m (exported p) (heap w)))
            (assign p (fields (run m (exported p) (heap w))))).
  apply perform_grown; [apply Hm|]. exact Hp.
Qed.

(** The modifiers named in one of the calls end up in the list, after
    those that were there. *)
Lemma perform_extra (extra : list ReqMod) (cs : list (Call Modifier)) :
  Forall AppendingCall cs ->
  In (CallAddReqMods extra) cs ->
  forall p, Forall Appending (reqMods p) -> Forall Appending (resMods p) ->
  exists before after,
    reqMods (fold_left perform cs p) = reqMods p ++ before ++ extra ++ after.
Proof.
  induction 1 as [|c cs Hc Hcs IH]; intros Hin p Hreq Hres; [destruct Hin|].
  simpl. destruct Hin as [Heq|Hin].
  - subst c. inversion Hc as [ms Hms Hx| | | |]; subst.
    assert (Hg : grown (reqMods p ++ extra) (AddReqMods p extra)).
    { split; [exists []; simpl; now rewrite app_nil_r|]. split; [|exact Hres].
      simpl. apply Forall_app. now split. }
    destruct (perform_grown Hcs Hg) as ([added Hadd] & _).
    exists [], added. simpl. now rewrite Hadd, <- app_assoc.
  - assert (Hg : grown (reqMods p) (perform p c)).
    { apply (@perform_grown (reqMods p) [c]); [now constructor|].
      split; [exists []; now rewrite app_nil_r|]. now split. }
    destruct Hg as ([x Hx] & Hreq' & Hres').
    destruct (IH Hin (perform p c) Hreq' Hres') as (b & a & Hba).
    exists (x ++ b), a. now rewrite Hba, Hx, <- !app_assoc.
Qed.

Lemma grown_reset (base : list ReqMod) (p : ProxyChain) :
  grown base p -> grown base (_reset p).
Proof. intro H. exact H. Qed.

Lemma grown_set_Resp (base : list ReqMod) (p : ProxyChain) (v : option http.Response) :
  grown base p -> grown base (set_Resp p v).
Proof. intro H. exact H. Qed.

Lemma grown_set_Body (base : list ReqMod) (p : ProxyChain) (v : option (list byte)) :
  grown base p -> grown base (set_Body p v).
Proof. intro H. exact H. Qed.

Lemma grown_resMods (base : list ReqMod) (p : ProxyChain) :
  grown base p -> Forall Appending (resMods p).
Proof. intros (_ & _ & H). exact H. Qed.

Lemma grown_refl (p : ProxyChain) :
  Forall Appending (reqMods p) -> Forall Appending (resMods p) ->
  grown (reqMods p) p.
Proof.
  intros Hreq Hres. split; [|now split]. exists []. now rewrite app_nil_r.
Qed.

Lemma same_configuration_refl (p : ProxyChain) : same_configuration p p.
Proof. repeat split. Qed.

(** Binding a context never touches the configuration. *)
Lemma SetCtx_same_configuration {L : Library} (c : CtxPtr) (p : ProxyChain) (w : World) :
  same_configuration p (chain_after (SetCtx c p w)).
Proof.
  unfold SetCtx. unfold bind at 1. unfold modify at 1. unfold bind at 1.
  assert (HE : same_configuration p
                 (chain_after (extractUrl (set_Ctx p (Some c)) w))).
  { unfold extractUrl. go_unfold. simpl.
    destruct (Parse _) as [q|e]; [|repeat split].
    destruct (String.eqb (url.Scheme q) ""); simpl; [|repeat split].
    destruct (Parse _) as [r|e]; [|repeat split].
    destruct (String.eqb (url.Host r) ""); [repeat split|].
    destruct (Parse _) as [real|e]; repeat split. }
  destruct (extractUrl (set_Ctx p (Some c)) w) as [[[msg|]|] [p1 w1]];
    try exact HE.
  destruct (abort_cases msg p1 w1) as (o & w2 & lines & Hab & _).
  unfold bind, modify. rewrite Hab. destruct o; exact HE.
Qed.

(** C5, as stated, fails: a chain that masquerades as Googlebot holds
    four request modifiers after [Execute], and held one before. *)
Lemma Execute_changes_reqMods :
  ~ (forall (L : Library) (p : ProxyChain) (w : World),
        cleared (chain_after (Execute p w)) /\
        same_configuration p (chain_after (Execute p w))).
Proof.
  intro H.
  destruct (H scenario.lib
              (chain_after (SetCtx 0 scenario.bot
                              (scenario.server "https://example.com/a?x=1" "")))
              (scenario.server "https://example.com/a?x=1" ""))
    as [_ [Hreq _]].
  apply (f_equal (@length Modifier)) in Hreq. vm_compute in Hreq.
  discriminate Hreq.
Qed.

(** C5, amended.  After [Execute] and after [ExecuteAPIContent], however
    they end, the context, the target URL, the outbound request, the
    upstream response, the buffered body and the cached abort error are
    all [nil]; the final reset leaves both modifier lists, the client,
    the ruleset and the verbosity flag as [_execute] left them; and
    these are what they were before the call when every modifier of the
    chain is quiet, that is, calls no method of the chain and keeps its
    client. *)
Theorem Execute_clears_exchange_state {L : Library} (p : ProxyChain) (w : World) :
  cleared (chain_after (Execute p w)) /\
  cleared (chain_after (ExecuteAPIContent p w)) /\
  same_configuration (chain_after (_execute p w)) (chain_after (Execute p w)) /\
  (Forall quiet (reqMods p) -> Forall quiet (resMods p) ->
   same_configuration p (chain_after (Execute p w)) /\
   same_configuration p (chain_after (ExecuteAPIContent p w))).
Proof.
  change (ExecuteAPIContent p w) with (Execute p w).
  rewrite Execute_eq, finish_cleared.
  split; [apply reset_cleared|]. split; [apply reset_cleared|].
  split; [apply reset_same_configuration|].
  intros Hreq Hres.
  assert (H : same_configuration p (chain_after (_execute p w))).
  { apply (@_execute_keeps L (same_configuration p) quiet).
    - intros q Hq. exact Hq.
    - intros q v Hq. exact Hq.
    - intros q v Hq. exact Hq.
    - intros m q w' Hm Hq. now apply quiet_call.
    - intros q (_ & Hq & _). now rewrite Hq.
    - apply same_configuration_refl.
    - exact Hreq. }
  split; exact H.
Qed.

(** A chain whose only modifier spoofs the user agent. *)
Lemma Execute_clears_exchange_state_witness :
  let w := scenario.server "https://example.com/a?x=1" "" in
  let p := chain_after (SetCtx 0 (SetReqMods scenario.bot [rqm.SpoofUserAgent "curl"]) w) in
  same_configuration p (chain_after (Execute p w)) /\
  same_configuration p (chain_after (ExecuteAPIContent p w)).
Proof.
  intros w p.
  refine (proj2 (proj2 (proj2 (@Execute_clears_exchange_state scenario.lib p w))) _ _).
  - constructor; [|constructor]. intros e h. unfold rqm.SpoofUserAgent, rqm.on_Req_Header.
    simpl. destruct (eReq e) as [r|]; [destruct (http.ReqHeader r)|];
      split; reflexivity.
  - constructor.
Defined.

(** C10.  The reset keeps the request-modifier list.  So, on a chain of
    appending modifiers that is ready to execute, when the request
    modifiers before position [k] return no error and the one at
    position [k] calls [AddReqMods] with [extra], the chain that
    [Execute] leaves still holds [extra], after every modifier it held
    before: the list is longer by at least the length of [extra], the
    next [SetCtx] finds it so, and the chain is again one of appending
    modifiers, so that it grows again on the next exchange. *)
Theorem appended_reqMods_outlive_reset {L : Library}
        (p : ProxyChain) (w : World) (c : CtxPtr) (u : url.URL)
        (pre : list ReqMod) (m : ReqMod) (post : list ReqMod)
        (pk : ProxyChain) (wk : World) (extra : list ReqMod) :
  Ctx p = Some c ->
  _abort_err p = None ->
  URL p = Some u ->
  url.Scheme u <> "" ->
  Forall Appending (reqMods p) ->
  Forall Appending (resMods p) ->
  reqMods p = pre ++ m :: post ->
  range_reqMods 0 pre p w = (Returns None, (pk, wk)) ->
  In (CallAddReqMods extra) (calls (run m (exported pk) (heap wk))) ->
  (forall q, reqMods (_reset q) = reqMods q) /\
  (exists before after,
      reqMods (chain_after (Execute p w)) =
      reqMods p ++ before ++ extra ++ after) /\
  length (reqMods p) + length extra <= length (reqMods (chain_after (Execute p w))) /\
  (forall c' w',
      reqMods (chain_after (SetCtx c' (chain_after (Execute p w)) w')) =
      reqMods (chain_after (Execute p w))) /\
  Forall Appending (reqMods (chain_after (Execute p w))) /\
  Forall Appending (resMods (chain_after (Execute p w))).
Proof.
  intros HC HA HU HS Hreq Hres Hmods Hpre Hin.
  assert (Hparts : Forall Appending pre /\ Appending m /\ Forall Appending post).
  { rewrite Hmods in Hreq. apply Forall_app in Hreq. destruct Hreq as [H1 H2].
    inversion H2; subst. auto. }
  destruct Hparts as (Hpre_ok & Hm & Hpost).
  (* the chain when modifier [k] is called *)
  assert (Hk : grown (reqMods p) pk).
  { pose proof (@range_mods_keeps L (grown (reqMods p)) Appending
                  (@grown_reset _) (@grown_call _) EvReqMod pre Hpre_ok 0 p w
                  (@grown_refl p Hreq Hres)) as Hr.
    unfold range_reqMods in Hpre. now rewrite Hpre in Hr. }
  destruct Hk as ([added0 Hadd0] & Hreqk & Hresk).
  (* the chain when it returns *)
  set (r := call m pk (emit wk (EvReqMod (0 + length pre)))).
  assert (Hr : grown (reqMods (chain_after r)) (chain_after r)).
  { assert (Hg : grown (reqMods pk) (chain_after r)).
    { apply grown_call; [exact Hm|]. now apply (@grown_refl pk). }
    destruct Hg as (_ & H1 & H2). now apply (@grown_refl (chain_after r)). }
  assert (Hx : exists b a, reqMods (chain_after r) = reqMods pk ++ b ++ extra ++ a).
  { inversion Hm as [m' Hcalls Hm']. subst m'.
    exact (@perform_extra extra _ (Hcalls (exported pk) (heap wk)) Hin
             (assign pk (fields (run m (exported pk) (heap wk)))) Hreqk Hresk). }
  destruct Hx as (b & a & Hba).
  (* the rest of the exchange *)
  assert (Hend : grown (reqMods (chain_after r)) (chain_after (Execute p w))).
  { rewrite Execute_eq, finish_cleared. apply grown_reset.
    rewrite (_execute_bound p w HC), HA, HU, (scheme_set HS), Hmods.
    unfold range_reqMods in *. rewrite range_mods_app, Hpre, range_mods_cons.
    cbv zeta. fold r.
    destruct (outcome r) as [[msg|]|].
    - destruct (abort_then_cases msg (chain_after r) (world_after r))
        as (o & w' & lines & Hab & Hno & _).
      rewrite Hab. destruct o as [[e|]|]; [| congruence |]; exact Hr.
    - apply (@requests_then_dispatch_keeps L (grown (reqMods (chain_after r)))
               Appending (@grown_reset _) (@grown_set_Resp _) (@grown_set_Body _)
               (@grown_call _) (@grown_resMods _)); assumption.
    - exact Hr. }
  destruct Hend as ([added Hadd] & Hreq' & Hres').
  assert (Heq : reqMods (chain_after (Execute p w)) =
                reqMods p ++ (added0 ++ b) ++ extra ++ (a ++ added)).
  { rewrite Hadd, Hba, Hadd0. now rewrite <- !app_assoc. }
  split; [reflexivity|].
  split; [now exists (added0 ++ b), (a ++ added)|].
  split; [rewrite Heq, !length_app; lia|].
  split; [|now split].
  intros c' w'. now destruct (SetCtx_same_configuration c' (chain_after (Execute p w)) w').
Qed.

Lemma Appending_spoofer (f : option http.Header -> Outcome (option http.Header)) :
  Appending (rqm.on_Req_Header f).
Proof.
  constructor. intros e h. unfold rqm.on_Req_Header. simpl.
  destruct (eReq e) as [r|]; [destruct (f (http.ReqHeader r))|]; constructor.
Qed.

Lemma Appending_masquerade (botUA botIP : string) :
  Appending (rqm.masqueradeAsTrustedBot botUA botIP).
Proof.
  constructor. intros e h. simpl. constructor; [|constructor].
  apply appending_AddReqMods.
  repeat (apply Forall_cons; [apply Appending_spoofer|]). apply Forall_nil.
Qed.

(** The chain that masquerades as Googlebot. *)
Lemma appended_reqMods_outlive_reset_witness :
  let w := scenario.server "https://example.com/a?x=1" "" in
  let p := chain_after (SetCtx 0 scenario.bot w) in
  let extra := [rqm.SpoofUserAgent "Mozilla/5.0 AppleWebKit/537.36 (KHTML, like Gecko; compatible; Googlebot/2.1; http://www.google.com/bot.html) Chrome/79.0.3945.120 Safari/537.36";
                rqm.SpoofXForwardedFor "66.249.78.8";
                rqm.SpoofReferrer ""] in
  exists before after,
    reqMods (chain_after (Execute p w)) = reqMods p ++ before ++ extra ++ after.
Proof.
  intros w p extra.
  refine (proj1 (proj2 (@appended_reqMods_outlive_reset scenario.lib p w 0
            (reference.with_path "https" "example.com" "/a" "x=1" false false)
            [] rqm.MasqueradeAsGoogleBot [] p w extra _ _ _ _ _ _ _ _ _))).
  - reflexivity.
  - reflexivity.
  - reflexivity.
  - simpl. discriminate.
  - constructor; [apply Appending_masquerade | constructor].
  - constructor.
  - reflexivity.
  - reflexivity.
  - left. reflexivity.
Defined.

(** * Where the code departs from its documentation *)

(** C2.  A chain whose only request modifier is [MasqueradeAsGoogleBot]
    executes one exchange: the loop calls that modifier alone, the
    request goes upstream without any of the headers that the three
    modifiers it enqueued would set, and these three are left in the
    list.  They are called for the first time in the next exchange. *)
Theorem appended_reqMods_miss_their_exchange :
  let w := scenario.server "https://example.com/a?x=1" "" in
  let first := scenario.exchange 0 scenario.bot w in
  let second := scenario.exchange 0 (scenario.outbound (chain_after first))
                                  (scenario.server "https://example.com/a?x=1" "") in
  let botUA := "Mozilla/5.0 AppleWebKit/537.36 (KHTML, like Gecko; compatible; Googlebot/2.1; http://www.google.com/bot.html) Chrome/79.0.3945.120 Safari/537.36" in
  outcome first = Returns None /\
  trace (world_after first) =
  [EvReqMod 0; EvDo DefaultClient (Some {| http.ReqHeader := Some [] |})] /\
  reqMods (chain_after first) =
  [rqm.MasqueradeAsGoogleBot; rqm.SpoofUserAgent botUA;
   rqm.SpoofXForwardedFor "66.249.78.8"; rqm.SpoofReferrer ""] /\
  trace (world_after second) =
  [EvReqMod 0; EvReqMod 1; EvReqMod 2; EvReqMod 3;
   EvDo DefaultClient
        (Some {| http.ReqHeader := Some [("X-Forwarded-For", "66.249.78.8");
                                         ("User-Agent", botUA)] |})].
Proof. repeat split. Qed.

(** C3.  A fresh chain is bound to the capture [/images/pic.png] with
    the referer [https://proxyhost/https://example.com/page]: [SetCtx]
    returns with the resolution error cached, and the [Execute] that
    follows panics instead of returning that error; it writes nothing
    and resets the chain. *)
Theorem Execute_after_failed_bind_panics :
  let w := scenario.server "/images/pic.png"
                           "https://proxyhost/https://example.com/page" in
  let bound := SetCtx 0 scenario.fresh w in
  outcome bound = Returns tt /\
  _abort_err (chain_after bound) =
  Some "ProxyChain error for 'https://example.com/images/pic.png': ProxyChain failed to extract url from relative path: '/images/pic.png'" /\
  Ctx (chain_after bound) = None /\
  Execute (chain_after bound) (world_after bound) =
  (Panics, (_reset (chain_after bound), world_after bound)).
Proof. repeat split. Qed.

(** A resolution failure that leaves the target URL [nil] makes [SetCtx]
    panic in [abort], on [p.URL.String()]. *)
Lemma unresolved_bind_panics {L : Library}
      (p : ProxyChain) (w : World) (c : CtxPtr) (msg : string) :
  URL p = None ->
  extractUrl (set_Ctx p (Some c)) w = (Returns (Some msg), (set_Ctx p (Some c), w)) ->
  SetCtx c p w =
  (Panics, (_reset p,
            set_heap w (store (heap w) c (fiber.SetStatusCode (heap w c) 500)))).
Proof.
  intros HU HE. rewrite (SetCtx_aborts c p w HE).
  now rewrite (@abort_no_URL L msg (set_Ctx p (Some c)) w c eq_refl HU).
Qed.

(** C9.  A fresh chain is bound to the capture [/images/pic.png] of a
    request without referer: resolution fails, and [SetCtx] panics in
    [abort]; the response has status 500 and an empty body, not the
    report, and nothing is logged. *)
Theorem failed_resolution_reports_nothing :
  let w := scenario.server "/images/pic.png" "" in
  let bound := SetCtx 0 scenario.fresh w in
  outcome bound = Panics /\
  fiber.Status (heap (world_after bound) 0) = 500%Z /\
  fiber.ResponseBody (heap (world_after bound) 0) = [] /\
  trace (world_after bound) = [].
Proof. repeat split. Qed.

(** * The shape of an exchange *)

Section shape.

Context {L : Library}.

(** [abort] logs at most one line. *)
Lemma abort_then_shape (err : string) (p : ProxyChain) (w : World) :
  exists o w' lines,
    (e <- abort err ;; ret (Some e)) p w = (o, (_reset p, w')) /\
    o <> Returns None /\
    length lines <= 1 /\
    trace w' = trace w ++ map EvLog lines.
Proof.
  unfold bind, ret.
  destruct (Ctx p) as [c|] eqn:HC.
  - destruct (URL p) as [u|] eqn:HU.
    + rewrite (abort_reports err p w HC HU).
      exists (Returns (Some (report u err))), (reported w c (report u err)),
        [report u err].
      repeat split; [discriminate | simpl; lia].
    + rewrite (abort_no_URL err p w HC HU).
      eexists Panics, _, []. repeat split; [discriminate | simpl; lia |].
      simpl. now rewrite app_nil_r.
  - rewrite (abort_unbound err p w HC).
    exists Panics, w, []. repeat split; [discriminate | simpl; lia |].
    simpl. now rewrite app_nil_r.
Qed.

(** A loop either runs to its end, having called every modifier of its
    slice, or stops after a non-empty prefix, with at most one log line. *)
Lemma range_mods_shape (ev : nat -> Event) (ms : list Modifier) :
  forall (i : nat) (p : ProxyChain) (w : World),
    (outcome (range_mods ev i ms p w) = Returns None /\
     trace (world_after (range_mods ev i ms p w)) =
     trace w ++ map ev (seq i (length ms))) \/
    (outcome (range_mods ev i ms p w) <> Returns None /\
     exists n lines,
       n <= length ms /\ length lines <= 1 /\
       trace (world_after (range_mods ev i ms p w)) =
       trace w ++ map ev (seq i n) ++ map EvLog lines).
Proof.
  induction ms as [|m ms IH]; intros i p w.
  - left. split; [reflexivity|]. simpl. now rewrite app_nil_r.
  - rewrite range_mods_cons. cbv zeta.
    destruct (outcome (call m p (emit w (ev i)))) as [[msg|]|] eqn:R.
    + right.
      destruct (abort_then_shape msg (chain_after (call m p (emit w (ev i))))
                                 (world_after (call m p (emit w (ev i)))))
        as (o & w1 & lines & Hab & Hno & Hlen & Htr).
      rewrite Hab. split; [exact Hno|].
      exists 1, lines. split; [simpl; lia|]. split; [exact Hlen|].
      unfold world_after at 1. simpl snd. rewrite Htr, call_trace. simpl.
      now rewrite <- app_assoc.
    + destruct (IH (S i) (chain_after (call m p (emit w (ev i))))
                   (world_after (call m p (emit w (ev i)))))
        as [[Ho Htr]|[Ho (n & lines & Hn & Hlen & Htr)]].
      * left. split; [exact Ho|]. rewrite Htr, call_trace. simpl.
        now rewrite <- app_assoc.
      * right. split; [exact Ho|]. exists (S n), lines.
        split; [simpl; lia|]. split; [exact Hlen|].
        rewrite Htr, call_trace. simpl. now rewrite <- app_assoc.
    + right. split; [discriminate|]. exists 1, [].
      split; [simpl; lia|]. split; [simpl; lia|]. reflexivity.
Qed.

(** [dispatch] asks the client once, then calls a prefix of the response
    modifiers. *)
Lemma dispatch_shape (p : ProxyChain) (w : World) :
  exists m lines,
    m <= length (resMods p) /\ length lines <= 1 /\
    trace (world_after (dispatch p w)) =
    trace w ++ [EvDo (Client p) (Req p)] ++ map EvResMod (seq 0 m)
            ++ map EvLog lines.
Proof.
  rewrite dispatch_eq. cbv zeta.
  destruct (Do (Client p) (Req p)) as [[resp|err]|].
  - destruct (ReadAll resp) as [body|err].
    + unfold range_resMods.
      destruct (range_mods_shape EvResMod (resMods p) 0
                  (set_Body (set_Resp p (Some resp)) (Some body))
                  (emit w (EvDo (Client p) (Req p))))
        as [[Ho Htr]|[Ho (n & lines & Hn & Hlen & Htr)]].
      * exists (length (resMods p)), []. split; [lia|]. split; [simpl; lia|].
        destruct (range_mods EvResMod 0 (resMods p) _ _) as [[a|] s];
          unfold world_after in *; simpl in *; rewrite Htr;
          now rewrite <- !app_assoc, app_nil_r.
      * exists n, lines. split; [exact Hn|]. split; [exact Hlen|].
        destruct (range_mods EvResMod 0 (resMods p) _ _) as [[a|] s];
          unfold world_after in *; simpl in *; rewrite Htr;
          now rewrite <- !app_assoc.
    + destruct (abort_then_shape err (set_Resp p (Some resp))
                  (emit w (EvDo (Client p) (Req p))))
        as (o & w1 & lines & Hab & _ & Hlen & Htr).
      rewrite Hab. exists 0, lines. split; [lia|]. split; [exact Hlen|].
      unfold world_after. simpl. rewrite Htr. simpl. now rewrite <- app_assoc.
  - destruct (abort_then_shape err p (emit w (EvDo (Client p) (Req p))))
      as (o & w1 & lines & Hab & _ & Hlen & Htr).
    rewrite Hab. exists 0, lines. split; [lia|]. split; [exact Hlen|].
    unfold world_after. simpl. rewrite Htr. simpl. now rewrite <- app_assoc.
  - exists 0, []. split; [lia|]. split; [simpl; lia|]. reflexivity.
Qed.

Lemma finish_trace (r : Outcome error * (ProxyChain * World)) :
  trace (world_after (finish r)) = trace (world_after r).
Proof.
  destruct r as [[[e|]|] [p w]]; try reflexivity.
  unfold finish. destruct (Ctx p); reflexivity.
Qed.

End shape.

(** X1.  Whatever the chain and the library, the events that [Execute]
    adds to the trace are, in this order: calls of the request modifiers
    at positions [0..n-1] of the list the chain held at the start; at
    most one call of the client, and then only if all these request
    modifiers were called; calls of response modifiers at positions
    [0..m-1], only after the call of the client; and at most one log
    line. *)
Theorem exchange_order {L : Library} (p : ProxyChain) (w : World) :
  exists (n : nat) (dos : list Event) (m : nat) (lines : list string),
    trace (world_after (Execute p w)) =
    trace w ++ map EvReqMod (seq 0 n) ++ dos ++ map EvResMod (seq 0 m)
            ++ map EvLog lines /\
    n <= length (reqMods p) /\
    ((dos = [] /\ m = 0) \/
     (exists c r, dos = [EvDo c r] /\ n = length (reqMods p))) /\
    length lines <= 1.
Proof.
  rewrite Execute_eq, finish_trace.
  assert (Hnone : forall s : World,
             trace s = trace w ->
             exists n dos m lines,
               trace s = trace w ++ map EvReqMod (seq 0 n) ++ dos
                         ++ map EvResMod (seq 0 m) ++ map EvLog lines /\
               n <= length (reqMods p) /\
               ((dos = [] /\ m = 0) \/
                (exists c r, dos = [EvDo c r] /\ n = length (reqMods p))) /\
               length lines <= 1).
  { intros s Hs. exists 0, [], 0, []. rewrite Hs. simpl.
    rewrite app_nil_r. repeat split; [lia | now left | lia]. }
  destruct (Ctx p) as [c|] eqn:HC.
  - rewrite (_execute_bound p w HC).
    destruct (_abort_err p); [now apply Hnone|].
    destruct (URL p) as [u|]; [|now apply Hnone].
    destruct (String.eqb (url.Scheme u) ""); [now apply Hnone|].
    unfold range_reqMods.
    destruct (range_mods_shape EvReqMod (reqMods p) 0 p w)
      as [[Ho Htr]|[Ho (n & lines & Hn & Hlen & Htr)]].
    + destruct (range_mods EvReqMod 0 (reqMods p) p w) as [[[e|]|] [p1 w1]];
        try discriminate Ho.
      unfold world_after in Htr. simpl in Htr.
      destruct (dispatch_shape p1 w1) as (m & lines & Hm & Hlen & Hd).
      exists (length (reqMods p)), [EvDo (Client p1) (Req p1)], m, lines.
      rewrite Hd, Htr. split; [now rewrite <- !app_assoc|].
      split; [lia|]. split; [|exact Hlen]. right. now exists (Client p1), (Req p1).
    + exists n, [], 0, lines.
      destruct (range_mods EvReqMod 0 (reqMods p) p w) as [[[e|]|] [p1 w1]].
      * unfold world_after in *. simpl in *. rewrite Htr.
        repeat split; [exact Hn | now left | exact Hlen].
      * now elim Ho.
      * unfold world_after in *. simpl in *. rewrite Htr.
        repeat split; [exact Hn | now left | exact Hlen].
  - rewrite (_execute_unbound p w HC). now apply Hnone.
Qed.

(** * What [Execute] refuses *)

(** X2.  On a chain without a bound context, such as a new one,
    [Execute] and [ExecuteAPIContent] panic: [_validate_ctx_is_set]
    calls [abort], which dereferences the missing context.  Nothing is
    written, logged or sent, and the chain is reset. *)
Theorem Execute_without_context_panics {L : Library} (p : ProxyChain) (w : World) :
  Ctx p = None ->
  Execute p w = (Panics, (_reset p, w)) /\
  ExecuteAPIContent p w = (Panics, (_reset p, w)).
Proof.
  intro HC. change (ExecuteAPIContent p w) with (Execute p w).
  rewrite (Execute_unbound p w HC). split; reflexivity.
Qed.

(** A new chain. *)
Lemma Execute_without_context_panics_witness :
  let p := NewProxyChain DefaultClient in
  let w := scenario.server "https://example.com/a?x=1" "" in
  Execute p w = (Panics, (_reset p, w)) /\
  ExecuteAPIContent p w = (Panics, (_reset p, w)).
Proof.
  intros p w.
  exact (@Execute_without_context_panics scenario.lib p w eq_refl).
Defined.

(** X3.  On a chain with a bound context that holds a cached abort
    error, [Execute] returns that error and resets: no modifier is
    called, the client is not called, and nothing is written to the
    context. *)
Theorem cached_error_is_returned {L : Library}
        (p : ProxyChain) (w : World) (c : CtxPtr) (e : string) :
  Ctx p = Some c ->
  _abort_err p = Some e ->
  Execute p w = (Returns (Some e), (_reset p, w)).
Proof.
  intros HC HA. rewrite Execute_eq, (_execute_bound p w HC), HA. reflexivity.
Qed.

(** A chain whose first binding failed is bound again, to an absolute
    capture: [Execute] answers the second request with the error of the
    first. *)
Lemma cached_error_is_returned_witness :
  let failed := chain_after (SetCtx 0 scenario.fresh
                  (scenario.server "/images/pic.png"
                     "https://proxyhost/https://example.com/page")) in
  let w := scenario.server "https://example.com/a?x=1" "" in
  let p := chain_after (SetCtx 1 failed w) in
  Execute p w =
  (Returns (Some "ProxyChain error for 'https://example.com/images/pic.png': ProxyChain failed to extract url from relative path: '/images/pic.png'"),
   (_reset p, w)).
Proof.
  intros failed w p.
  exact (@cached_error_is_returned scenario.lib p w 1 _ eq_refl eq_refl).
Defined.

(** X4.  When the capture resolves to an absolute URL, [SetCtx] returns
    having bound the context and set the target URL, and changes nothing
    else: the world is untouched and a cached abort error stays. *)
Theorem SetCtx_resolves {L : Library}
        (p : ProxyChain) (w : World) (c : CtxPtr) (u : url.URL) :
  Parse (unescaped (fiber.ParamsStar (heap w c))) = Ok u ->
  url.Scheme u <> "" ->
  SetCtx c p w = (Returns tt, (set_URL (set_Ctx p (Some c)) (Some u), w)) /\
  _abort_err (chain_after (SetCtx c p w)) = _abort_err p.
Proof.
  intros HP HS.
  assert (HE : SetCtx c p w =
               (Returns tt, (set_URL (set_Ctx p (Some c)) (Some u), w))).
  { unfold SetCtx. unfold bind at 1. unfold modify at 1. unfold bind at 1.
    now rewrite (@extractUrl_absolute L (set_Ctx p (Some c)) w c u eq_refl HP HS). }
  rewrite HE. split; reflexivity.
Qed.

Lemma SetCtx_resolves_witness :
  let p := scenario.fresh in
  let w := scenario.server "https://example.com/a?x=1" "" in
  let u := reference.with_path "https" "example.com" "/a" "x=1" false false in
  SetCtx 0 p w = (Returns tt, (set_URL (set_Ctx p (Some 0)) (Some u), w)) /\
  _abort_err (chain_after (SetCtx 0 p w)) = _abort_err p.
Proof.
  intros p w u.
  refine (@SetCtx_resolves scenario.lib p w 0 u _ _).
  - reflexivity.
  - simpl. discriminate.
Defined.

(** X5.  On a chain with a bound context whose target URL has an empty
    scheme, [Execute] returns the fixed error about the request URL and
    resets.  It does not go through [abort]: no status, no body and no
    log line are written, and no modifier is called. *)
Theorem empty_scheme_is_refused {L : Library}
        (p : ProxyChain) (w : World) (c : CtxPtr) (u : url.URL) :
  Ctx p = Some c ->
  _abort_err p = None ->
  URL p = Some u ->
  url.Scheme u = "" ->
  Execute p w =
  (Returns (Some "request url not set or invalid. Check ProxyChain ReqMods for issues"),
   (_reset p, w)).
Proof.
  intros HC HA HU HS.
  rewrite Execute_eq, (_execute_bound p w HC), HA, HU, HS. reflexivity.
Qed.

(** The handler assigned a URL without scheme to the exported field. *)
Lemma empty_scheme_is_refused_witness :
  let p := set_URL (set_Ctx scenario.bot (Some 0))
                   (Some (url.literal "" "example.com" "/a" "")) in
  let w := scenario.server "/a" "" in
  Execute p w =
  (Returns (Some "request url not set or invalid. Check ProxyChain ReqMods for issues"),
   (_reset p, w)).
Proof.
  intros p w.
  exact (@empty_scheme_is_refused scenario.lib p w 0 _ eq_refl eq_refl eq_refl eq_refl).
Defined.

(** * The resolver, once more *)

(** X6.  [extractUrl] writes nothing outside the chain, not even the log
    line of the verbose mode, and in the chain it assigns at most the
    target URL. *)
Theorem extractUrl_frame {L : Library} (p : ProxyChain) (w : World) :
  world_after (extractUrl p w) = w /\
  (chain_after (extractUrl p w) = p \/
   exists u, chain_after (extractUrl p w) = set_URL p (Some u)).
Proof.
  unfold extractUrl. go_unfold.
  destruct (Ctx p) as [c|]; simpl; [|now split; [|left]].
  destruct (Parse _) as [q|e]; [|now split; [|left]].
  destruct (String.eqb (url.Scheme q) ""); simpl;
    [|split; [reflexivity|right; eexists; reflexivity]].
  destruct (Parse _) as [r|e]; [|now split; [|left]].
  destruct (String.eqb (url.Host r) ""); [now split; [|left]|].
  destruct (Parse _) as [real|e]; [|now split; [|left]].
  split; [reflexivity|right; eexists; reflexivity].
Qed.

(** X7.  When [extractUrl] returns no error, the capture was an
    absolute URL: the target URL of the chain is the parse of the
    capture, URL-decoded or taken as it is when decoding fails, and its
    scheme is not empty. *)
Theorem extractUrl_success {L : Library} (p : ProxyChain) (w : World) :
  outcome (extractUrl p w) = Returns None ->
  exists c reqUrl u,
    Ctx p = Some c /\
    (QueryUnescape (fiber.ParamsStar (heap w c)) = Ok reqUrl \/
     ((exists e, QueryUnescape (fiber.ParamsStar (heap w c)) = Err e) /\
      reqUrl = fiber.ParamsStar (heap w c))) /\
    Parse reqUrl = Ok u /\
    url.Scheme u <> "" /\
    chain_after (extractUrl p w) = set_URL p (Some u).
Proof.
  unfold extractUrl. go_unfold.
  destruct (Ctx p) as [c|]; simpl; [|discriminate].
  destruct (Parse (unescaped (fiber.ParamsStar (heap w c)))) as [q|e] eqn:HP;
    [|discriminate].
  destruct (String.eqb (url.Scheme q) "") eqn:HS; simpl.
  - destruct (Parse (fiber.Referer (heap w c))) as [r|e]; [|discriminate].
    destruct (String.eqb (url.Host r) ""); [discriminate|].
    destruct (Parse (TrimPrefix (url.Path r) "/")) as [real|e]; discriminate.
  - intros _. exists c, (unescaped (fiber.ParamsStar (heap w c))), q.
    split; [reflexivity|]. split.
    + unfold unescaped.
      destruct (QueryUnescape (fiber.ParamsStar (heap w c))) as [s|e] eqn:HQ.
      * now left.
      * right. split; [now exists e | reflexivity].
    + split; [exact HP|]. split; [now apply String.eqb_neq | reflexivity].
Qed.

(** A capture that cannot be decoded and is parsed as it is. *)
Lemma extractUrl_success_witness :
  let p := set_Ctx scenario.fresh (Some 0) in
  let w := scenario.server "https://example.com/a?x=100%" "" in
  exists c reqUrl u,
    Ctx p = Some c /\
    (QueryUnescape (fiber.ParamsStar (heap w c)) = Ok reqUrl \/
     ((exists e, QueryUnescape (fiber.ParamsStar (heap w c)) = Err e) /\
      reqUrl = fiber.ParamsStar (heap w c))) /\
    Parse reqUrl = Ok u /\
    url.Scheme u <> "" /\
    chain_after (extractUrl p w) = set_URL p (Some u).
Proof.
  intros p w. exact (@extractUrl_success scenario.lib p w eq_refl).
Defined.

(** * How an exchange fails after the request modifiers *)

Lemma reported_heap (w : World) (c : CtxPtr) (e : string) :
  heap (reported w c e) c =
  fiber.SendString (fiber.SetStatusCode (heap w c) 500) e.
Proof. unfold reported. simpl. now rewrite store_same. Qed.

(** X8.  On a chain that is ready to execute, when the request
    modifiers return no error and the client returns an error,
    [Execute] returns the report of that error for the current target
    URL, the inbound context has status 500 and the report as its body,
    the report is logged, no response modifier is called and the chain
    is reset. *)
Theorem dispatch_error_is_reported {L : Library}
        (p : ProxyChain) (w : World) (c : CtxPtr) (u : url.URL)
        (p1 : ProxyChain) (w1 : World) (c1 : CtxPtr) (u1 : url.URL)
        (err : string) :
  Ctx p = Some c ->
  _abort_err p = None ->
  URL p = Some u ->
  url.Scheme u <> "" ->
  range_reqMods 0 (reqMods p) p w = (Returns None, (p1, w1)) ->
  Ctx p1 = Some c1 ->
  URL p1 = Some u1 ->
  Do (Client p1) (Req p1) = Returns (Err err) ->
  outcome (Execute p w) =
  Returns (Some ("ProxyChain error for '" +++ URL_String u1 +++ "': " +++ err)) /\
  fiber.Status (heap (world_after (Execute p w)) c1) = 500%Z /\
  fiber.ResponseBody (heap (world_after (Execute p w)) c1) =
  list_byte_of_string ("ProxyChain error for '" +++ URL_String u1 +++ "': " +++ err) /\
  trace (world_after (Execute p w)) =
  trace w1 ++ [EvDo (Client p1) (Req p1);
               EvLog ("ProxyChain error for '" +++ URL_String u1 +++ "': " +++ err)] /\
  chain_after (Execute p w) = _reset p1.
Proof.
  intros HC HA HU HS Hreq HC1 HU1 HDo.
  rewrite Execute_eq, (_execute_bound p w HC), HA, HU, (scheme_set HS), Hreq.
  rewrite dispatch_eq. cbv zeta. rewrite HDo. unfold bind, ret.
  rewrite (@abort_reports L err p1 (emit w1 (EvDo (Client p1) (Req p1))) c1 u1 HC1 HU1).
  unfold outcome, world_after, chain_after, finish. simpl fst. simpl snd.
  rewrite reported_heap. unfold report.
  repeat split. simpl. now rewrite <- app_assoc.
Qed.

Lemma dispatch_error_is_reported_witness :
  let p := scenario.ready scenario.unreachable scenario.fresh in
  let w := scenario.server "https://example.com/a?x=1" "" in
  outcome (@Execute scenario.unreachable p w) =
  Returns (Some "ProxyChain error for 'https://example.com/a?x=1': dial tcp: connection refused") /\
  fiber.Status (heap (world_after (@Execute scenario.unreachable p w)) 0) = 500%Z.
Proof.
  intros p w.
  pose proof (@dispatch_error_is_reported scenario.unreachable p w 0
                (reference.with_path "https" "example.com" "/a" "x=1" false false)
                p w 0
                (reference.with_path "https" "example.com" "/a" "x=1" false false)
                "dial tcp: connection refused"
                eq_refl eq_refl eq_refl) as H.
  refine (let H' := H _ eq_refl eq_refl eq_refl eq_refl in
          conj (proj1 H') (proj1 (proj2 H'))).
  simpl. discriminate.
Defined.

(** X9.  On a chain that is ready to execute, when the request
    modifiers return no error, the client returns a response and
    reading its body fails, [Execute] returns the report of the read
    error, the inbound context has status 500 and the report as its
    body, no response modifier is called and the chain is reset: the
    response does not outlive the exchange. *)
Theorem read_error_is_reported {L : Library}
        (p : ProxyChain) (w : World) (c : CtxPtr) (u : url.URL)
        (p1 : ProxyChain) (w1 : World) (c1 : CtxPtr) (u1 : url.URL)
        (resp : http.Response) (err : string) :
  Ctx p = Some c ->
  _abort_err p = None ->
  URL p = Some u ->
  url.Scheme u <> "" ->
  range_reqMods 0 (reqMods p) p w = (Returns None, (p1, w1)) ->
  Ctx p1 = Some c1 ->
  URL p1 = Some u1 ->
  Do (Client p1) (Req p1) = Returns (Ok resp) ->
  ReadAll resp = Err err ->
  outcome (Execute p w) =
  Returns (Some ("ProxyChain error for '" +++ URL_String u1 +++ "': " +++ err)) /\
  fiber.Status (heap (world_after (Execute p w)) c1) = 500%Z /\
  fiber.ResponseBody (heap (world_after (Execute p w)) c1) =
  list_byte_of_string ("ProxyChain error for '" +++ URL_String u1 +++ "': " +++ err) /\
  trace (world_after (Execute p w)) =
  trace w1 ++ [EvDo (Client p1) (Req p1);
               EvLog ("ProxyChain error for '" +++ URL_String u1 +++ "': " +++ err)] /\
  chain_after (Execute p w) = _reset p1.
Proof.
  intros HC HA HU HS Hreq HC1 HU1 HDo Hread.
  rewrite Execute_eq, (_execute_bound p w HC), HA, HU, (scheme_set HS), Hreq.
  rewrite dispatch_eq. cbv zeta. rewrite HDo, Hread. unfold bind, ret.
  rewrite (@abort_reports L err (set_Resp p1 (Some resp))
             (emit w1 (EvDo (Client p1) (Req p1))) c1 u1 HC1 HU1).
  unfold outcome, world_after, chain_after, finish. simpl fst. simpl snd.
  rewrite reported_heap. unfold report.
  repeat split. simpl. now rewrite <- app_assoc.
Qed.

Lemma read_error_is_reported_witness :
  let p := scenario.ready scenario.truncated scenario.fresh in
  let w := scenario.server "https://example.com/a?x=1" "" in
  outcome (@Execute scenario.truncated p w) =
  Returns (Some "ProxyChain error for 'https://example.com/a?x=1': unexpected EOF") /\
  fiber.Status (heap (world_after (@Execute scenario.truncated p w)) 0) = 500%Z.
Proof.
  intros p w.
  pose proof (@read_error_is_reported scenario.truncated p w 0
                (reference.with_path "https" "example.com" "/a" "x=1" false false)
                p w 0
                (reference.with_path "https" "example.com" "/a" "x=1" false false)
                {| http.StatusCode := 200; http.RespBody := Err "unexpected EOF" |}
                "unexpected EOF"
                eq_refl eq_refl eq_refl) as H.
  refine (let H' := H _ eq_refl eq_refl eq_refl eq_refl eq_refl in
          conj (proj1 H') (proj1 (proj2 H'))).
  simpl. discriminate.
Defined.

(** The methods a modifier calls do not touch the exported fields: after
    its call these are as the modifier assigned them. *)
Lemma perform_exported (cs : list (Call Modifier)) :
  forall q, exported (fold_left perform cs q) = exported q.
Proof.
  induction cs as [|c cs IH]; intro q; [reflexivity|].
  simpl. rewrite IH. destruct c; reflexivity.
Qed.

Lemma call_exported (m : Modifier) (p : ProxyChain) (w : World) :
  exported (chain_after (call m p w)) = fields (run m (exported p) (heap w)).
Proof.
  unfold chain_after, call. simpl. rewrite perform_exported.
  destruct (fields (run m (exported p) (heap w))); reflexivity.
Qed.

(** X10.  On a chain that is ready to execute, when the request
    modifiers return no error, the upstream body is read, the response
    modifiers before position [k] return no error and the one at
    position [k] returns an error, the caller receives status 500 with
    the report of that error as body, not the upstream body; no later
    response modifier is called and [Execute] returns the report. *)
Theorem failing_resMod_is_reported {L : Library}
        (p : ProxyChain) (w : World) (c : CtxPtr) (u : url.URL)
        (p1 : ProxyChain) (w1 : World)
        (resp : http.Response) (body : list byte)
        (pre : list ResMod) (m : ResMod) (post : list ResMod)
        (pk : ProxyChain) (wk : World) (msg : string)
        (ck : CtxPtr) (uk : url.URL) :
  Ctx p = Some c ->
  _abort_err p = None ->
  URL p = Some u ->
  url.Scheme u <> "" ->
  range_reqMods 0 (reqMods p) p w = (Returns None, (p1, w1)) ->
  Do (Client p1) (Req p1) = Returns (Ok resp) ->
  ReadAll resp = Ok body ->
  resMods p1 = pre ++ m :: post ->
  range_resMods 0 pre (set_Body (set_Resp p1 (Some resp)) (Some body))
                (emit w1 (EvDo (Client p1) (Req p1))) = (Returns None, (pk, wk)) ->
  result (run m (exported pk) (heap wk)) = Returns (Some msg) ->
  eCtx (fields (run m (exported pk) (heap wk))) = Some ck ->
  eURL (fields (run m (exported pk) (heap wk))) = Some uk ->
  outcome (Execute p w) =
  Returns (Some ("ProxyChain error for '" +++ URL_String uk +++ "': " +++ msg)) /\
  fiber.Status (heap (world_after (Execute p w)) ck) = 500%Z /\
  fiber.ResponseBody (heap (world_after (Execute p w)) ck) =
  list_byte_of_string ("ProxyChain error for '" +++ URL_String uk +++ "': " +++ msg) /\
  trace (world_after (Execute p w)) =
  trace w1 ++ [EvDo (Client p1) (Req p1)]
           ++ map EvResMod (seq 0 (S (length pre)))
           ++ [EvLog ("ProxyChain error for '" +++ URL_String uk +++ "': " +++ msg)].
Proof.
  intros HC HA HU HS Hreq HDo Hread Hmods Hpre Hres HCk HUk.
  rewrite Execute_eq, (_execute_bound p w HC), HA, HU, (scheme_set HS), Hreq.
  rewrite dispatch_eq. cbv zeta. rewrite HDo, Hread, Hmods.
  unfold range_resMods in *. rewrite range_mods_app, Hpre, range_mods_cons.
  cbv zeta.
  assert (Ho : outcome (call m pk (emit wk (EvResMod (0 + length pre))))
               = Returns (Some msg)) by exact Hres.
  rewrite Ho. unfold bind, ret.
  pose proof (call_exported m pk (emit wk (EvResMod (0 + length pre)))) as Hex.
  assert (HCk' : Ctx (chain_after (call m pk (emit wk (EvResMod (0 + length pre)))))
                 = Some ck).
  { change (eCtx (exported (chain_after
              (call m pk (emit wk (EvResMod (0 + length pre)))))) = Some ck).
    rewrite Hex. exact HCk. }
  assert (HUk' : URL (chain_after (call m pk (emit wk (EvResMod (0 + length pre)))))
                 = Some uk).
  { change (eURL (exported (chain_after
              (call m pk (emit wk (EvResMod (0 + length pre)))))) = Some uk).
    rewrite Hex. exact HUk. }
  rewrite (@abort_reports L msg
             (chain_after (call m pk (emit wk (EvResMod (0 + length pre)))))
             (world_after (call m pk (emit wk (EvResMod (0 + length pre)))))
             ck uk HCk' HUk').
  cbv [outcome finish fst snd]. unfold world_after at 1 2 3.
  cbv [fst snd]. rewrite !reported_heap. unfold report.
  split; [reflexivity|]. split; [reflexivity|]. split; [reflexivity|].
  unfold reported. simpl trace.
  rewrite (range_mods_completed _ _ _ _ _ Hpre). simpl trace.
  rewrite seq_S, map_app. simpl. now rewrite <- !app_assoc.
Qed.

(** The second of three response modifiers refuses. *)
Lemma failing_resMod_is_reported_witness :
  let w := scenario.server "https://example.com/a?x=1" "" in
  let p := scenario.ready scenario.lib
             (SetResMods scenario.fresh
                [scenario.idle; scenario.refuse "refused"; scenario.idle]) in
  outcome (Execute p w) =
  Returns (Some "ProxyChain error for 'https://example.com/a?x=1': refused") /\
  fiber.ResponseBody (heap (world_after (Execute p w)) 0) =
  list_byte_of_string "ProxyChain error for 'https://example.com/a?x=1': refused".
Proof.
  intros w p.
  pose proof (@failing_resMod_is_reported scenario.lib p w 0
                (reference.with_path "https" "example.com" "/a" "x=1" false false)
                p w
                {| http.StatusCode := 200; http.RespBody := Ok scenario.page |}
                scenario.page
                [scenario.idle] (scenario.refuse "refused") [scenario.idle]
                (set_Body (set_Resp p (Some {| http.StatusCode := 200;
                                               http.RespBody := Ok scenario.page |}))
                          (Some scenario.page))
                (emit (emit w (EvDo (Client p) (Req p))) (EvResMod 0))
                "refused" 0
                (reference.with_path "https" "example.com" "/a" "x=1" false false)
                eq_refl eq_refl eq_refl) as H.
  refine (let H' := H _ eq_refl eq_refl eq_refl eq_refl eq_refl eq_refl eq_refl eq_refl in
          conj (proj1 H') (proj1 (proj2 (proj2 H')))).
  simpl. discriminate.
Defined.

(** * A successful exchange *)

(** X11.  On a chain that is ready to execute, when every request
    modifier returns no error, the upstream body is read and every
    response modifier returns no error, [Execute] returns no error;
    the trace is the calls of all request modifiers, one call of the
    client, then the calls of all response modifiers; and the body
    written to the context is the buffered body as the last response
    modifier left it. *)
Theorem exchange_succeeds {L : Library}
        (p : ProxyChain) (w : World) (c : CtxPtr) (u : url.URL)
        (p1 : ProxyChain) (w1 : World)
        (resp : http.Response) (body : list byte)
        (p2 : ProxyChain) (w2 : World) (c2 : CtxPtr) :
  Ctx p = Some c ->
  _abort_err p = None ->
  URL p = Some u ->
  url.Scheme u <> "" ->
  range_reqMods 0 (reqMods p) p w = (Returns None, (p1, w1)) ->
  Do (Client p1) (Req p1) = Returns (Ok resp) ->
  ReadAll resp = Ok body ->
  range_resMods 0 (resMods p1) (set_Body (set_Resp p1 (Some resp)) (Some body))
                (emit w1 (EvDo (Client p1) (Req p1))) = (Returns None, (p2, w2)) ->
  Ctx p2 = Some c2 ->
  outcome (Execute p w) = Returns None /\
  chain_after (Execute p w) = _reset p2 /\
  fiber.ResponseBody (heap (world_after (Execute p w)) c2) =
  match Body p2 with Some b => b | None => [] end /\
  fiber.Status (heap (world_after (Execute p w)) c2) = fiber.Status (heap w2 c2) /\
  trace (world_after (Execute p w)) =
  trace w ++ map EvReqMod (seq 0 (length (reqMods p)))
          ++ [EvDo (Client p1) (Req p1)]
          ++ map EvResMod (seq 0 (length (resMods p1))).
Proof.
  intros HC HA HU HS Hreq HDo Hread Hres HC2.
  rewrite Execute_eq, (_execute_bound p w HC), HA, HU, (scheme_set HS), Hreq.
  rewrite dispatch_eq. cbv zeta. rewrite HDo, Hread, Hres.
  unfold finish. rewrite HC2.
  unfold outcome, chain_after, world_after. simpl fst. simpl snd.
  simpl heap. rewrite store_same.
  split; [reflexivity|]. split; [reflexivity|]. split; [reflexivity|].
  split; [reflexivity|]. simpl trace.
  unfold range_reqMods, range_resMods in *.
  rewrite (range_mods_completed _ _ _ _ _ Hres). simpl trace.
  rewrite (range_mods_completed _ _ _ _ _ Hreq).
  now rewrite <- !app_assoc.
Qed.

(** A response modifier replaces the page of the upstream. *)
Lemma exchange_succeeds_witness :
  let w := scenario.server "https://example.com/a?x=1" "" in
  let text := list_byte_of_string "rewritten" in
  let p := scenario.ready scenario.lib
             (SetResMods scenario.fresh [scenario.rewrite_body text]) in
  outcome (Execute p w) = Returns None /\
  fiber.ResponseBody (heap (world_after (Execute p w)) 0) = text.
Proof.
  intros w text p.
  pose proof (@exchange_succeeds scenario.lib p w 0
                (reference.with_path "https" "example.com" "/a" "x=1" false false)
                p w
                {| http.StatusCode := 200; http.RespBody := Ok scenario.page |}
                scenario.page
                (set_Body (set_Resp p (Some {| http.StatusCode := 200;
                                               http.RespBody := Ok scenario.page |}))
                          (Some text))
                (emit (emit w (EvDo (Client p) (Req p))) (EvResMod 0))
                0 eq_refl eq_refl eq_refl) as H.
  refine (let H' := H _ eq_refl eq_refl eq_refl eq_refl eq_refl in
          conj (proj1 H') (proj1 (proj2 (proj2 H')))).
  simpl. discriminate.
Defined.

Lemma keeps_Req_call (m : Modifier) (q : ProxyChain) (w : World) :
  keeps_Req m -> Req q = None -> Req (chain_after (call m q w)) = None.
Proof.
  intros Hm Hq.
  change (eReq (exported (chain_after (call m q w))) = None).
  rewrite call_exported, Hm. exact Hq.
Qed.

(** X12.  On a chain that is ready to execute and has no outbound
    request, when the request modifiers keep that field and return no
    error, [Execute] calls the client with a [nil] request: the chain
    itself never builds one. *)
Theorem nil_request_is_dispatched {L : Library}
        (p : ProxyChain) (w : World) (c : CtxPtr) (u : url.URL)
        (p1 : ProxyChain) (w1 : World) :
  Ctx p = Some c ->
  _abort_err p = None ->
  URL p = Some u ->
  url.Scheme u <> "" ->
  Req p = None ->
  Forall keeps_Req (reqMods p) ->
  range_reqMods 0 (reqMods p) p w = (Returns None, (p1, w1)) ->
  In (EvDo (Client p1) None) (trace (world_after (Execute p w))).
Proof.
  intros HC HA HU HS HR Hkeep Hreq.
  assert (HR1 : Req p1 = None).
  { pose proof (@range_mods_keeps L (fun q => Req q = None) keeps_Req
                  (fun q H => eq_refl)
                  (fun m q w' Hm Hq => @keeps_Req_call m q w' Hm Hq)
                  EvReqMod (reqMods p) Hkeep 0 p w HR) as Hr.
    unfold range_reqMods in Hreq. now rewrite Hreq in Hr. }
  destruct (dispatch_shape p1 w1) as (m & lines & _ & _ & Hd).
  rewrite Execute_eq, finish_trace, (_execute_bound p w HC), HA, HU,
    (scheme_set HS), Hreq, Hd, HR1.
  apply in_or_app. right. left. reflexivity.
Qed.

(** A new chain, bound and executed as the package comment shows. *)
Lemma nil_request_is_dispatched_witness :
  let w := scenario.server "https://example.com/a?x=1" "" in
  let p := chain_after (SetCtx 0 scenario.fresh w) in
  In (EvDo DefaultClient None) (trace (world_after (Execute p w))).
Proof.
  intros w p.
  pose proof (@nil_request_is_dispatched scenario.lib p w 0
                (reference.with_path "https" "example.com" "/a" "x=1" false false)
                p w eq_refl eq_refl eq_refl) as H.
  refine (H _ eq_refl (Forall_nil _) eq_refl).
  simpl. discriminate.
Defined.

(** * Headers *)

Lemma find_filter_implied {A} (f g : A -> bool) (l : list A) :
  (forall x, f x = true -> g x = true) ->
  find f (filter g l) = find f l.
Proof.
  intro H. induction l as [|x l IH]; [reflexivity|]. simpl.
  destruct (g x) eqn:Hg; simpl.
  - now rewrite IH.
  - destruct (f x) eqn:Hf; [|exact IH]. apply H in Hf. congruence.
Qed.

Lemma find_filter_excluded {A} (f g : A -> bool) (l : list A) :
  (forall x, f x = true -> g x = false) ->
  find f (filter g l) = None.
Proof.
  intro H. induction l as [|x l IH]; [reflexivity|]. simpl.
  destruct (g x) eqn:Hg; simpl; [|exact IH].
  destruct (f x) eqn:Hf; [|exact IH]. apply H in Hf. congruence.
Qed.

Lemma Get_Del_same (h : http.Header) (key key' : string) :
  http.CanonicalMIMEHeaderKey key' = http.CanonicalMIMEHeaderKey key ->
  http.Get (http.Del h key) key' = "".
Proof.
  intro Heq. unfold http.Get, http.Del. rewrite Heq.
  rewrite find_filter_excluded; [reflexivity|].
  intros x Hx. now rewrite Hx.
Qed.

Lemma Get_Del_other (h : http.Header) (key key' : string) :
  http.CanonicalMIMEHeaderKey key' <> http.CanonicalMIMEHeaderKey key ->
  http.Get (http.Del h key) key' = http.Get h key'.
Proof.
  intro Hne. unfold http.Get, http.Del.
  rewrite find_filter_implied; [reflexivity|].
  intros x Hx. apply String.eqb_eq in Hx.
  apply negb_true_iff, String.eqb_neq. congruence.
Qed.

Lemma Get_Set_same (h : http.Header) (key key' value : string) :
  http.CanonicalMIMEHeaderKey key' = http.CanonicalMIMEHeaderKey key ->
  http.Get (http.Set_ h key value) key' = value.
Proof.
  intro Heq. unfold http.Get, http.Set_. simpl. rewrite Heq.
  now rewrite String.eqb_refl.
Qed.

Lemma Get_Set_other (h : http.Header) (key key' value : string) :
  http.CanonicalMIMEHeaderKey key' <> http.CanonicalMIMEHeaderKey key ->
  http.Get (http.Set_ h key value) key' = http.Get h key'.
Proof.
  intro Hne. pose proof (Get_Del_other h key key' Hne) as HD.
  unfold http.Get, http.Set_ in *. simpl.
  assert (Hb : String.eqb (http.CanonicalMIMEHeaderKey key)
                          (http.CanonicalMIMEHeaderKey key') = false)
    by (apply String.eqb_neq; congruence).
  rewrite Hb. exact HD.
Qed.

Lemma Del_idempotent (h : http.Header) (key : string) :
  http.Del (http.Del h key) key = http.Del h key.
Proof.
  unfold http.Del. induction h as [|x h IH]; [reflexivity|]. simpl.
  destruct (negb _) eqn:Hx; simpl; [rewrite Hx|]; now rewrite ?IH.
Qed.

Lemma Set_idempotent (h : http.Header) (key value : string) :
  http.Set_ (http.Set_ h key value) key value = http.Set_ h key value.
Proof.
  unfold http.Set_. f_equal. unfold http.Del at 1. simpl.
  rewrite String.eqb_refl. simpl. apply Del_idempotent.
Qed.

(** * The request modifiers of [rqm] *)

(** What a modifier built by [on_Req_Header] does to a chain that holds
    a request. *)
Lemma on_Req_Header_run (f : option http.Header -> Outcome (option http.Header))
      (e : Exported) (h : CtxHeap) (r : http.Request) :
  eReq e = Some r ->
  run (rqm.on_Req_Header f) e h =
  match f (http.ReqHeader r) with
  | Panics => rqm.effect e h [] Panics
  | Returns hd =>
      rqm.effect (rqm.set_eReq e (Some {| http.ReqHeader := hd |}))
                 h [] (Returns None)
  end.
Proof. intro H. simpl. now rewrite H. Qed.

(** X13.  [SpoofUserAgent], [SpoofXForwardedFor] and [SpoofOrigin] run
    on a chain that holds a request.  When the header map of the request
    is not [nil], they return no error and leave the request with their
    value under the header they spoof, User-Agent, X-Forwarded-For and
    Origin, whatever it held there; every other header reads as before.
    When the header map is [nil], they panic and the chain is as it
    was.  In both cases they touch no context and call no method of the
    chain. *)
Theorem spoofers_set_their_header
        (e : Exported) (h : CtxHeap) (r : http.Request) (value : string)
        (m : ReqMod) (key : string) :
  eReq e = Some r ->
  In (m, key) [(rqm.SpoofUserAgent value, "User-Agent");
               (rqm.SpoofXForwardedFor value, "X-Forwarded-For");
               (rqm.SpoofOrigin value, "Origin")] ->
  contexts (run m e h) = h /\
  calls (run m e h) = [] /\
  match http.ReqHeader r with
  | Some hd =>
      exists hd',
        result (run m e h) = Returns None /\
        fields (run m e h) =
        rqm.set_eReq e (Some {| http.ReqHeader := Some hd' |}) /\
        http.Get hd' key = value /\
        (forall key', http.CanonicalMIMEHeaderKey key' <> key ->
                      http.Get hd' key' = http.Get hd key')
  | None =>
      result (run m e h) = Panics /\
      fields (run m e h) = e
  end.
Proof.
  intros HR Hin.
  destruct Hin as [H|[H|[H|[]]]]; inversion H; subst m key; clear H;
    unfold rqm.SpoofUserAgent, rqm.SpoofXForwardedFor, rqm.SpoofOrigin;
    rewrite (on_Req_Header_run _ e h HR);
    (destruct (http.ReqHeader r) as [hd|]; simpl;
     [ split; [reflexivity|]; split; [reflexivity|];
       eexists; split; [reflexivity|]; split; [reflexivity|];
       split; [now apply Get_Set_same | intros key' Hk; now apply Get_Set_other]
     | repeat split ]).
Qed.

(** A request with two headers, and a request whose header map is
    [nil]. *)
Lemma spoofers_set_their_header_witness :
  let h := fun _ : CtxPtr => scenario.inbound "" "" in
  let m := rqm.SpoofUserAgent "Googlebot" in
  let e := rqm.set_eReq (exported scenario.fresh)
             (Some {| http.ReqHeader :=
                        Some [("User-Agent", "curl/8.0"); ("Accept", "*/*")] |}) in
  let e0 := rqm.set_eReq (exported scenario.fresh)
              (Some {| http.ReqHeader := None |}) in
  (exists hd',
     result (run m e h) = Returns None /\
     fields (run m e h) = rqm.set_eReq e (Some {| http.ReqHeader := Some hd' |}) /\
     http.Get hd' "User-Agent" = "Googlebot" /\
     http.Get hd' "Accept" = "*/*") /\
  (result (run m e0 h) = Panics /\ fields (run m e0 h) = e0).
Proof.
  intros h m e e0. split.
  - destruct (@spoofers_set_their_header e h _ "Googlebot" m "User-Agent"
                eq_refl (or_introl eq_refl))
      as (_ & _ & hd' & Hr & Hf & Hg & Ho).
    exists hd'. split; [exact Hr|]. split; [exact Hf|]. split; [exact Hg|].
    rewrite (Ho "Accept"); [reflexivity | discriminate].
  - exact (proj2 (proj2 (@spoofers_set_their_header e0 h _ "Googlebot" m
                           "User-Agent" eq_refl (or_introl eq_refl)))).
Defined.

Lemma on_Req_Header_twice (f : option http.Header -> Outcome (option http.Header))
      (e : Exported) (h : CtxHeap) :
  (forall hd hd', f hd = Returns hd' -> f hd' = Returns hd') ->
  run (rqm.on_Req_Header f) (fields (run (rqm.on_Req_Header f) e h)) h =
  run (rqm.on_Req_Header f) e h.
Proof.
  intro Hf. simpl. destruct (eReq e) as [r|] eqn:HR; simpl.
  - destruct (f (http.ReqHeader r)) as [hd|] eqn:Hfr; simpl.
    + now rewrite (Hf _ _ Hfr).
    + now rewrite HR, Hfr.
  - now rewrite HR.
Qed.

Lemma Header_Set_twice (key value : string) (hd hd' : option http.Header) :
  http.Header_Set hd key value = Returns hd' ->
  http.Header_Set hd' key value = Returns hd'.
Proof.
  destruct hd as [entries|]; simpl; intro H; [|discriminate H].
  inversion H; subst hd'. simpl. now rewrite Set_idempotent.
Qed.

Lemma Header_Del_twice (key : string) (hd hd' : option http.Header) :
  Returns (http.Header_Del hd key) = Returns hd' ->
  Returns (http.Header_Del hd' key) = Returns hd'.
Proof.
  intro H. inversion H; subst hd'.
  destruct hd as [entries|]; simpl; [|reflexivity].
  now rewrite Del_idempotent.
Qed.

(** X14.  The modifiers that write one request header are idempotent:
    run a second time on the chain they left, they leave it as it is.
    So the copies that accumulate in a reused chain change nothing
    more. *)
Theorem header_modifiers_idempotent
        (e : Exported) (h : CtxHeap) (value : string) (m : ReqMod) :
  In m [rqm.SpoofUserAgent value; rqm.SpoofXForwardedFor value;
        rqm.SpoofOrigin value; rqm.SpoofReferrer value;
        rqm.BlockOutgoingCookies] ->
  run m (fields (run m e h)) h = run m e h.
Proof.
  intro Hin.
  destruct Hin as [H|[H|[H|[H|[H|[]]]]]]; subst m;
    unfold rqm.SpoofUserAgent, rqm.SpoofXForwardedFor, rqm.SpoofOrigin,
      rqm.SpoofReferrer, rqm.BlockOutgoingCookies;
    try destruct (String.eqb value "");
    apply on_Req_Header_twice; intros hd hd';
    (apply Header_Set_twice || apply Header_Del_twice).
Qed.

Lemma header_modifiers_idempotent_witness :
  let e := rqm.set_eReq (exported scenario.fresh)
             (Some {| http.ReqHeader := Some [("Cookie", "sid=1")] |}) in
  let h := fun _ : CtxPtr => scenario.inbound "" "" in
  run rqm.BlockOutgoingCookies (fields (run rqm.BlockOutgoingCookies e h)) h =
  run rqm.BlockOutgoingCookies e h.
Proof.
  intros e h.
  refine (@header_modifiers_idempotent e h "" rqm.BlockOutgoingCookies _).
  simpl. tauto.
Defined.

(** X15.  [SpoofReferrer] and [HideReferrer] write the header named
    Referrer.  On a request whose header map is not [nil], with an empty
    argument [SpoofReferrer] leaves no value under it, otherwise its
    argument, and [HideReferrer] the target URL; none of them changes
    what the request holds under Referer.  On a request whose header map
    is [nil], [HideReferrer] panics, and so does [SpoofReferrer] unless
    its argument is empty: then it returns no error and the request is as
    it was. *)
Theorem referrer_modifiers_miss_referer {L : Library}
        (e : Exported) (h : CtxHeap) (r : http.Request) (u : url.URL)
        (value : string) :
  eReq e = Some r ->
  eURL e = Some u ->
  match http.ReqHeader r with
  | Some hd =>
      exists hd1 hd2,
        result (run (rqm.SpoofReferrer value) e h) = Returns None /\
        result (run rqm.HideReferrer e h) = Returns None /\
        fields (run (rqm.SpoofReferrer value) e h) =
        rqm.set_eReq e (Some {| http.ReqHeader := Some hd1 |}) /\
        fields (run rqm.HideReferrer e h) =
        rqm.set_eReq e (Some {| http.ReqHeader := Some hd2 |}) /\
        http.Get hd1 "Referrer" = value /\
        http.Get hd2 "Referrer" = URL_String u /\
        http.Get hd1 "Referer" = http.Get hd "Referer" /\
        http.Get hd2 "Referer" = http.Get hd "Referer"
  | None =>
      result (run rqm.HideReferrer e h) = Panics /\
      fields (run rqm.HideReferrer e h) = e /\
      (value <> "" ->
       result (run (rqm.SpoofReferrer value) e h) = Panics /\
       fields (run (rqm.SpoofReferrer value) e h) = e) /\
      (value = "" ->
       result (run (rqm.SpoofReferrer value) e h) = Returns None /\
       eReq (fields (run (rqm.SpoofReferrer value) e h)) = Some r)
  end.
Proof.
  intros HR HU.
  assert (Hne : http.CanonicalMIMEHeaderKey "Referer"
                <> http.CanonicalMIMEHeaderKey "referrer") by discriminate.
  unfold rqm.HideReferrer, rqm.set_to_URL, rqm.SpoofReferrer. simpl run.
  rewrite HR, HU.
  destruct r as [[hd|]]; simpl http.ReqHeader; simpl http.Header_Set; cbv iota.
  - destruct (String.eqb value "") eqn:Hv;
      rewrite (on_Req_Header_run _ e h HR); simpl.
    + apply String.eqb_eq in Hv. subst value.
      do 2 eexists. do 4 (split; [reflexivity|]).
      split; [now apply Get_Del_same|]. split; [now apply Get_Set_same|].
      split; [now apply Get_Del_other | now apply Get_Set_other].
    + do 2 eexists. do 4 (split; [reflexivity|]).
      split; [now apply Get_Set_same|]. split; [now apply Get_Set_same|].
      split; now apply Get_Set_other.
  - split; [reflexivity|]. split; [reflexivity|].
    destruct (String.eqb value "") eqn:Hv;
      rewrite (on_Req_Header_run _ e h HR); simpl.
    + apply String.eqb_eq in Hv. split; [intro Hn; now elim Hn|].
      intros _. split; reflexivity.
    + apply String.eqb_neq in Hv. split; [intros _; split; reflexivity|].
      intro Hn. now elim Hv.
Qed.

(** A request that holds the proxy under Referer, and a request whose
    header map is [nil]. *)
Lemma referrer_modifiers_miss_referer_witness :
  let u := url.literal "https" "example.com" "/a" "" in
  let h := fun _ : CtxPtr => scenario.inbound "" "" in
  let e := rqm.set_eURL
             (rqm.set_eReq (exported scenario.fresh)
                (Some {| http.ReqHeader := Some [("Referer", "https://proxyhost/")] |}))
             (Some u) in
  let e0 := rqm.set_eURL
              (rqm.set_eReq (exported scenario.fresh)
                 (Some {| http.ReqHeader := None |}))
              (Some u) in
  (exists hd1 hd2,
     fields (run (rqm.SpoofReferrer "") e h) =
     rqm.set_eReq e (Some {| http.ReqHeader := Some hd1 |}) /\
     fields (run rqm.HideReferrer e h) =
     rqm.set_eReq e (Some {| http.ReqHeader := Some hd2 |}) /\
     http.Get hd2 "Referrer" = "https://example.com/a" /\
     http.Get hd1 "Referer" = "https://proxyhost/" /\
     http.Get hd2 "Referer" = "https://proxyhost/") /\
  result (run rqm.HideReferrer e0 h) = Panics.
Proof.
  intros u h e e0. split.
  - destruct (@referrer_modifiers_miss_referer scenario.lib e h _ u ""
                eq_refl eq_refl)
      as (hd1 & hd2 & _ & _ & H1 & H2 & _ & H4 & H5 & H6).
    exists hd1, hd2. repeat split; assumption.
  - exact (proj1 (@referrer_modifiers_miss_referer scenario.lib e0 h _ u ""
                    eq_refl eq_refl)).
Defined.

(** X16.  On a chain that is ready to execute and has no outbound
    request, when the first request modifier is one of those that write
    a request header, [Execute] panics in that modifier: the client is
    not called, nothing is written to the context or logged, and the
    chain is reset. *)
Theorem header_modifier_without_request_panics {L : Library}
        (p : ProxyChain) (w : World) (c : CtxPtr) (u : url.URL)
        (value : string) (m : ReqMod) (rest : list ReqMod) :
  Ctx p = Some c ->
  _abort_err p = None ->
  URL p = Some u ->
  url.Scheme u <> "" ->
  Req p = None ->
  reqMods p = m :: rest ->
  In m [rqm.SpoofUserAgent value; rqm.SpoofXForwardedFor value;
        rqm.SpoofOrigin value; rqm.SpoofReferrer value;
        rqm.BlockOutgoingCookies; rqm.HideOrigin; rqm.HideReferrer] ->
  outcome (Execute p w) = Panics /\
  heap (world_after (Execute p w)) = heap w /\
  trace (world_after (Execute p w)) = trace w ++ [EvReqMod 0] /\
  cleared (chain_after (Execute p w)) /\
  same_configuration p (chain_after (Execute p w)).
Proof.
  intros HC HA HU HS HR Hmods Hin.
  rewrite Execute_eq, (_execute_bound p w HC), HA, HU, (scheme_set HS), Hmods.
  unfold range_reqMods. rewrite range_mods_cons. cbv zeta.
  assert (Hrun : run m (exported p) (heap w) =
                 rqm.effect (exported p) (heap w) [] Panics).
  { destruct Hin as [H|[H|[H|[H|[H|[H|[H|[]]]]]]]]; subst m;
      unfold rqm.SpoofUserAgent, rqm.SpoofXForwardedFor, rqm.SpoofOrigin,
        rqm.SpoofReferrer, rqm.BlockOutgoingCookies, rqm.HideOrigin,
        rqm.HideReferrer, rqm.set_to_URL;
      try destruct (String.eqb value ""); simpl; now rewrite HR. }
  unfold outcome at 2, call. simpl fst. simpl snd.
  change (heap (emit w (EvReqMod 0))) with (heap w). rewrite Hrun.
  simpl. repeat split; reflexivity.
Qed.

(** A new chain, bound, with [SpoofUserAgent] as its only modifier. *)
Lemma header_modifier_without_request_panics_witness :
  let w := scenario.server "https://example.com/a?x=1" "" in
  let p := chain_after (SetCtx 0 (SetReqMods scenario.fresh
                                    [rqm.SpoofUserAgent "Googlebot"]) w) in
  outcome (Execute p w) = Panics /\
  trace (world_after (Execute p w)) = trace w ++ [EvReqMod 0].
Proof.
  intros w p.
  pose proof (@header_modifier_without_request_panics scenario.lib p w 0
                (reference.with_path "https" "example.com" "/a" "x=1" false false)
                "Googlebot" (rqm.SpoofUserAgent "Googlebot") []
                eq_refl eq_refl eq_refl) as H.
  refine (let H' := H _ eq_refl eq_refl (or_introl eq_refl) in
          conj (proj1 H') (proj1 (proj2 (proj2 H')))).
  simpl. discriminate.
Defined.

(** * The response modifiers of [rsm] *)

Lemma set_ResponseHeader_same (c : fiber.Ctx) :
  rsm.set_ResponseHeader c (fiber.ResponseHeader c) = c.
Proof. destruct c; reflexivity. Qed.

Lemma Del_absent_response_header {F : fasthttp.Methods}
      (hd : fasthttp.ResponseHeader) (key : string) :
  (forall kv, In kv hd -> fst kv <> fasthttp.normalizeHeaderKey key) ->
  fasthttp.Del hd key = hd.
Proof.
  intro H. unfold fasthttp.Del. induction hd as [|x hd IH]; [reflexivity|]. simpl.
  assert (Hx : String.eqb (fst x) (fasthttp.normalizeHeaderKey key) = false)
    by (apply String.eqb_neq, H; now left).
  rewrite Hx. simpl. f_equal. apply IH. intros kv Hin. apply H. now right.
Qed.

(** X18.  [DeleteResponseHeader], and [ModifyResponseHeader] with an
    empty value, run on a response that does not hold the header, return
    no error and change nothing. *)
Theorem delete_absent_response_header {F : fasthttp.Methods}
        (e : Exported) (h : CtxHeap) (c : CtxPtr) (key : string) (m : ResMod) :
  eCtx e = Some c ->
  (forall kv, In kv (fiber.ResponseHeader (h c)) ->
              fst kv <> fasthttp.normalizeHeaderKey key) ->
  In m [rsm.DeleteResponseHeader key; rsm.ModifyResponseHeader key ""] ->
  result (run m e h) = Returns None /\
  fields (run m e h) = e /\
  calls (run m e h) = [] /\
  forall c', contexts (run m e h) c' = h c'.
Proof.
  intros HC Habsent Hin.
  assert (Hrun : run m e h =
                 rqm.effect e
                   (store h c (rsm.set_ResponseHeader (h c)
                                 (fasthttp.Del (fiber.ResponseHeader (h c)) key)))
                   [] (Returns None)).
  { destruct Hin as [H|[H|[]]]; subst m; simpl; now rewrite HC. }
  rewrite Hrun. simpl. repeat split.
  intro c'. rewrite (Del_absent_response_header _ _ Habsent), set_ResponseHeader_same.
  unfold store. destruct (Nat.eqb c' c) eqn:Hc; [|reflexivity].
  apply Nat.eqb_eq in Hc. now subst c'.
Qed.

Lemma delete_absent_response_header_witness :
  let e := exported (set_Ctx scenario.fresh (Some 0)) in
  let ctx := rsm.set_ResponseHeader (scenario.inbound "" "")
               [("Content-Type", "text/html")] in
  let h := fun _ : CtxPtr => ctx in
  result (run (rsm.DeleteResponseHeader "X-Frame-Options") e h) = Returns None /\
  forall c', contexts (run (rsm.DeleteResponseHeader "X-Frame-Options") e h) c' = h c'.
Proof.
  intros e ctx h.
  pose proof (@delete_absent_response_header scenario.response_headers
                e h 0 "X-Frame-Options"
                (rsm.DeleteResponseHeader "X-Frame-Options") eq_refl) as H.
  refine (let H' := H _ (or_introl eq_refl) in
          conj (proj1 H') (proj2 (proj2 (proj2 H')))).
  intros kv [Hkv|[]]. subst kv. simpl. discriminate.
Defined.

(** X20.  [BypassCSP] only enqueues its four header modifiers, and the
    response loop runs over the list as it was when the loop began.  So
    in an exchange whose only response modifier is [BypassCSP], the
    response headers of the context are as the request phase left them,
    the upstream body is delivered, and the four modifiers are left in
    the list for the next exchange. *)
Theorem BypassCSP_misses_its_exchange {L : Library} {F : fasthttp.Methods}
        (p : ProxyChain) (w : World) (c : CtxPtr) (u : url.URL)
        (p1 : ProxyChain) (w1 : World) (c1 : CtxPtr)
        (resp : http.Response) (body : list byte) :
  Ctx p = Some c ->
  _abort_err p = None ->
  URL p = Some u ->
  url.Scheme u <> "" ->
  range_reqMods 0 (reqMods p) p w = (Returns None, (p1, w1)) ->
  Do (Client p1) (Req p1) = Returns (Ok resp) ->
  ReadAll resp = Ok body ->
  resMods p1 = [rsm.BypassCSP] ->
  Ctx p1 = Some c1 ->
  outcome (Execute p w) = Returns None /\
  fiber.ResponseHeader (heap (world_after (Execute p w)) c1) =
  fiber.ResponseHeader (heap w1 c1) /\
  fiber.ResponseBody (heap (world_after (Execute p w)) c1) = body /\
  resMods (chain_after (Execute p w)) =
  [rsm.BypassCSP;
   rsm.ModifyResponseHeader "Access-Control-Allow-Origin" "*";
   rsm.ModifyResponseHeader "Access-Control-Expose-Headers" "*";
   rsm.ModifyResponseHeader "Access-Control-Allow-Credentials" "true";
   rsm.ModifyResponseHeader "Access-Control-Allow-Methods" ""] /\
  trace (world_after (Execute p w)) =
  trace w1 ++ [EvDo (Client p1) (Req p1); EvResMod 0].
Proof.
  intros HC HA HU HS Hreq HDo Hread Hres HC1.
  rewrite Execute_eq, (_execute_bound p w HC), HA, HU, (scheme_set HS), Hreq.
  rewrite dispatch_eq. cbv zeta. rewrite HDo, Hread, Hres.
  unfold range_resMods. rewrite range_mods_cons. cbv zeta.
  cbn [outcome call run rsm.BypassCSP rqm.effect result fst snd range_mods ret
       chain_after world_after fields contexts calls fold_left perform
       finish].
  cbn [AddResMods assign exported Ctx set_Body set_Resp eCtx Body eBody resMods
       _reset]. rewrite HC1.
  cbn [outcome world_after chain_after fst snd heap set_heap emit trace
       resMods _reset AddResMods assign set_Body set_Resp].
  rewrite Hres, store_same.
  cbn [fiber.Send fiber.ResponseHeader fiber.ResponseBody app].
  repeat split. now rewrite <- app_assoc.
Qed.

Lemma BypassCSP_misses_its_exchange_witness :
  let w := scenario.server "https://example.com/a?x=1" "" in
  let p := scenario.ready scenario.lib
             (SetResMods scenario.fresh [rsm.BypassCSP]) in
  outcome (Execute p w) = Returns None /\
  fiber.ResponseHeader (heap (world_after (Execute p w)) 0) = [].
Proof.
  intros w p.
  pose proof (@BypassCSP_misses_its_exchange scenario.lib scenario.response_headers
                p w 0
                (reference.with_path "https" "example.com" "/a" "x=1" false false)
                p w 0
                {| http.StatusCode := 200; http.RespBody := Ok scenario.page |}
                scenario.page eq_refl eq_refl eq_refl) as H.
  refine (let H' := H _ eq_refl eq_refl eq_refl eq_refl eq_refl in
          conj (proj1 H') (proj1 (proj2 H'))).
  simpl. discriminate.
Defined.

(** X21.  [BlockOutgoingCookiesExcept], when none of the cookies of the
    request is named in its whitelist, and so whenever the whitelist is
    empty, does what [BlockOutgoingCookies] does: the Cookie header is
    deleted and no cookie is added back. *)
Theorem BlockOutgoingCookiesExcept_nothing_kept
        (Cookies : http.Request -> list http.Cookie)
        (AddCookie : http.Request -> http.Cookie -> Outcome http.Request)
        (whitelist : list string) (e : Exported) (h : CtxHeap) :
  (forall r cookie, eReq e = Some r -> In cookie (Cookies r) ->
                    ~ In (http.Name cookie) whitelist) ->
  run (rqm.BlockOutgoingCookiesExcept Cookies AddCookie whitelist) e h =
  run rqm.BlockOutgoingCookies e h.
Proof.
  intro Hnone. simpl. destruct (eReq e) as [r|] eqn:HR; [|reflexivity].
  assert (Hloop : forall cookies req,
             (forall cookie, In cookie cookies -> ~ In (http.Name cookie) whitelist) ->
             rqm.add_whitelisted AddCookie whitelist cookies req
             = (req, Returns None)).
  { induction cookies as [|ck cookies IH]; intros req Hall; [reflexivity|].
    simpl.
    assert (Hck : existsb (String.eqb (http.Name ck)) whitelist = false).
    { destruct (existsb (String.eqb (http.Name ck)) whitelist) eqn:Hex;
        [|reflexivity].
      apply existsb_exists in Hex. destruct Hex as (x & Hx & Heq).
      apply String.eqb_eq in Heq. subst x.
      elim (Hall ck (or_introl eq_refl) Hx). }
    rewrite Hck. apply IH. intros cookie Hin. apply Hall. now right. }
  rewrite Hloop; [reflexivity|]. intros cookie Hin. now apply (Hnone r).
Qed.

(** A request with a session cookie, and a whitelist that names another
    cookie. *)
Lemma BlockOutgoingCookiesExcept_nothing_kept_witness :
  let Cookies := fun _ : http.Request =>
                   [{| http.Name := "sid"; http.Value := "1" |}] in
  let AddCookie := fun (r : http.Request) (ck : http.Cookie) =>
                     match http.Header_Set (http.ReqHeader r) "Cookie"
                             (http.Name ck +++ "=" +++ http.Value ck) with
                     | Returns hd => Returns {| http.ReqHeader := hd |}
                     | Panics => Panics
                     end in
  let e := rqm.set_eReq (exported scenario.fresh)
             (Some {| http.ReqHeader := Some [("Cookie", "sid=1")] |}) in
  let h := fun _ : CtxPtr => scenario.inbound "" "" in
  run (rqm.BlockOutgoingCookiesExcept Cookies AddCookie ["theme"]) e h =
  run rqm.BlockOutgoingCookies e h.
Proof.
  intros Cookies AddCookie e h.
  refine (@BlockOutgoingCookiesExcept_nothing_kept Cookies AddCookie ["theme"] e h _).
  intros r cookie _ [Hck|[]] [Hin|[]]. subst cookie. discriminate Hin.
Defined.

(** * [abort] *)

(** X22.  [abort] always leaves the chain reset, the error it stored in
    [_abort_err] included, and the configuration as it was.  With a
    bound context it sets status 500.  It returns only when the context
    and the target URL are both set; what it returns is then the report
    for that URL, which is also the body it sent and the line it
    logged. *)
Theorem abort_always_resets {L : Library} (err : string) (p : ProxyChain) (w : World) :
  cleared (chain_after (abort err p w)) /\
  same_configuration p (chain_after (abort err p w)) /\
  (forall c, Ctx p = Some c ->
             fiber.Status (heap (world_after (abort err p w)) c) = 500%Z) /\
  (forall e, outcome (abort err p w) = Returns e ->
             exists c u,
               Ctx p = Some c /\ URL p = Some u /\
               e = "ProxyChain error for '" +++ URL_String u +++ "': " +++ err /\
               fiber.ResponseBody (heap (world_after (abort err p w)) c) =
               list_byte_of_string e /\
               trace (world_after (abort err p w)) = trace w ++ [EvLog e]).
Proof.
  destruct (Ctx p) as [c|] eqn:HC.
  - destruct (URL p) as [u|] eqn:HU.
    + rewrite (abort_reports err p w HC HU).
      split; [apply reset_cleared|]. split; [apply reset_same_configuration|].
      split.
      * intros c' Hc'. inversion Hc'; subst c'.
        unfold world_after. simpl snd. now rewrite reported_heap.
      * intros e He. inversion He; subst e. exists c, u.
        unfold world_after. simpl snd. rewrite reported_heap.
        repeat split.
    + rewrite (abort_no_URL err p w HC HU).
      split; [apply reset_cleared|]. split; [apply reset_same_configuration|].
      split.
      * intros c' Hc'. inversion Hc'; subst c'.
        unfold world_after. simpl. now rewrite store_same.
      * intros e He. discriminate He.
  - rewrite (abort_unbound err p w HC).
    split; [apply reset_cleared|]. split; [apply reset_same_configuration|].
    split; [intros c Hc; discriminate Hc | intros e He; discriminate He].
Qed.

Lemma abort_always_resets_witness :
  let w := scenario.server "https://example.com/a?x=1" "" in
  let p := scenario.ready scenario.lib scenario.fresh in
  fiber.Status (heap (world_after (abort "refused" p w)) 0) = 500%Z.
Proof.
  intros w p.
  exact (proj1 (proj2 (proj2 (@abort_always_resets scenario.lib "refused" p w)))
           0 eq_refl).
Defined.

(** * [ExecuteAPIContent] *)

